(** * File storage service: MinIO object store + SQLite metadata table

    A shallow embedding of the two FastAPI applications of the repository
    (the monolithic [app.py] and the layered [main.py] with
    [services/minio_service.py], [services/database_service.py] and
    [models/file_model.py]), followed by the properties of the file-record
    lifecycle.

    The two external systems are modelled as an explicit [world]:
    - the bucket is a finite map from object keys to blobs;
    - the [files] table is the list of its rows in rowid order, together
      with the AUTOINCREMENT high-water mark of [sqlite_sequence];
    - a log records, in order, every store and table call that completed.
    What the program cannot decide (the value of [uuid.uuid4()], the clock
    behind [CURRENT_TIMESTAMP], whether a call to either store raises, what
    a concurrent request does) comes in through an [env] record.
    Python exceptions are values of [exn]; a handler body is a computation
    in a state-and-exception monad and [try_except] is the [try] statement. *)

From stdpp Require Import base option list gmap strings sorting.
From Stdlib Require Import ZArith Lia Ascii String.

Local Open Scope Z_scope.

(** ** Python values and exceptions *)

Abbreviation bytes := (list Byte.byte).

(** The exceptions the handlers can see.  The [detail] of an
    [HTTPException] is either a literal or an f-string over [str(e)]; the
    text of [str(e)] is library-defined and kept symbolic. *)
Inductive exn : Type :=
| S3Error (code : string)            (* minio.error.S3Error *)
| MaxRetryError                      (* urllib3: the store is unreachable *)
| IntegrityError (msg : string)      (* sqlite3: constraint violated *)
| OperationalError (msg : string)    (* sqlite3: locked, I/O error, ... *)
| ValidationError (field : string)   (* pydantic *)
| TypeError (msg : string)
| UnicodeEncodeError                 (* str.encode("latin-1") *)
| OverflowError (msg : string)       (* sqlite3: int too large to bind *)
| HTTPException (status_code : Z) (detail : detail)
with detail : Type :=
| Literal (s : string)
| FString (prefix : string) (e : exn).

Inductive result (A : Type) : Type :=
| Ok (a : A)
| Raise (e : exn).
Arguments Ok {A} a.
Arguments Raise {A} e.

(** [x or d] on an optional string: [None] and the empty string are falsy. *)
Definition or_else (x : option string) (d : string) : string :=
  match x with
  | Some EmptyString => d
  | Some s => s
  | None => d
  end.

Definition octet_stream : string := "application/octet-stream".

(** A Python [str] is kept as the bytes of its UTF-8 encoding.  It can be
    encoded as latin-1 when every character is at most U+00FF: in UTF-8 such
    a character is one byte below 0x80, or the lead byte 0xC2 or 0xC3
    followed by one continuation byte. *)
Fixpoint latin1 (s : string) : bool :=
  match s with
  | EmptyString => true
  | String c s' =>
      let n := N_of_ascii c in
      if (n <? 128)%N then latin1 s'
      else if (n =? 194)%N || (n =? 195)%N then
        match s' with
        | String c' s'' =>
            (128 <=? N_of_ascii c')%N && (N_of_ascii c' <? 192)%N && latin1 s''
        | EmptyString => false
        end
      else false
  end.

(** SQLite binds a Python [int] as a signed 64-bit integer. *)
Definition in_int64 (n : Z) : bool :=
  (- 2 ^ 63 <=? n) && (n <? 2 ^ 63).

(** [s.split(".")[-1]]: the text after the last dot, the whole string when
    there is none. *)
Fixpoint split_last_from (acc : string) (s : string) : string :=
  match s with
  | EmptyString => acc
  | String c s' =>
      if Ascii.eqb c "."%char then split_last_from EmptyString s'
      else split_last_from (acc +:+ String c EmptyString) s'
  end.

Definition split_dot_last (s : string) : string := split_last_from EmptyString s.

(** ** The two stores *)

Module Blob.
Record t : Type := mk { data : bytes; length : Z; content_type : string }.
End Blob.

(** A row of [files].  [app.py] names the second column [filename],
    [database_service.py] names it [file_name]; the layout is otherwise the
    same.  [created_at] is the text [CURRENT_TIMESTAMP] writes, whose fixed
    width makes text order chronological order: it is kept as the number of
    seconds it denotes. *)
Module Row.
Record t : Type := mk {
  id : Z;
  file_name : string;
  minio_object_key : string;
  content_type : option string;
  size : option Z;
  created_at : Z }.
End Row.

Inductive event : Type :=
| EvPut (key : string)
| EvGet (key : string)
| EvRemove (key : string)
| EvInsert (id : Z) (key : string)
| EvDelete (id : Z) (rowcount : Z).

Record world : Type := mkWorld {
  bucket : gmap string Blob.t;
  db_rows : list Row.t;
  db_seq : Z;
  log : list event }.

Definition empty_world : world :=
  {| bucket := ∅; db_rows := []; db_seq := 0; log := [] |}.

(** What a request gets from outside the program. *)
Record env : Type := mkEnv {
  uuid4 : string;                 (* str(uuid.uuid4()) *)
  current_timestamp : Z;          (* CURRENT_TIMESTAMP *)
  store_fault : option exn;       (* the object-store call raises this *)
  remove_missing_raises : bool;   (* provider errors on removing an absent key *)
  db_fault : option exn;          (* the INSERT / DELETE statement raises this *)
  concurrent_delete : bool }.     (* another request deletes the same id
                                     right after this one's SELECT *)

Definition quiet (u : string) (now : Z) : env :=
  {| uuid4 := u; current_timestamp := now; store_fault := None;
     remove_missing_raises := false; db_fault := None;
     concurrent_delete := false |}.

(** ** State-and-exception monad *)

Definition M (A : Type) : Type := world → result A * world.

Definition ret {A} (a : A) : M A := λ w, (Ok a, w).
Definition raise {A} (e : exn) : M A := λ w, (Raise e, w).
Definition bind {A B} (m : M A) (k : A → M B) : M B :=
  λ w, match m w with
       | (Ok a, w') => k a w'
       | (Raise e, w') => (Raise e, w')
       end.
Definition try_except {A} (m : M A) (handler : exn → M A) : M A :=
  λ w, match m w with
       | (Ok a, w') => (Ok a, w')
       | (Raise e, w') => handler e w'
       end.
Definition lift {A} (r : result A) : M A := λ w, (r, w).
Definition emit (ev : event) : M unit :=
  λ w, (Ok tt, {| bucket := bucket w; db_rows := db_rows w;
                  db_seq := db_seq w; log := log w ++ [ev] |}).

Declare Scope py_scope.
Delimit Scope py_scope with py.
Notation "x <- m ;; k" := (bind m (λ x, k))
  (at level 100, m at next level, k at level 200, right associativity) : py_scope.
Notation "m ;; k" := (bind m (λ _, k))
  (at level 100, k at level 200, right associativity) : py_scope.
Local Open Scope py_scope.

(** ** MinIO client calls *)

Definition set_bucket (b : gmap string Blob.t) : M unit :=
  λ w, (Ok tt, {| bucket := b; db_rows := db_rows w;
                  db_seq := db_seq w; log := log w |}).

Definition put_object (e : env) (key : string) (data : bytes) (length : Z)
    (content_type : string) : M unit :=
  match store_fault e with
  | Some x => raise x
  | None =>
      λ w, (set_bucket (<[key := Blob.mk data length content_type]> (bucket w)) ;;
            emit (EvPut key)) w
  end.

(** [get_object] answers [NoSuchKey] for an absent key. *)
Definition get_object (e : env) (key : string) : M bytes :=
  match store_fault e with
  | Some x => raise x
  | None =>
      λ w, match bucket w !! key with
           | Some b => (emit (EvGet key) ;; ret (Blob.data b)) w
           | None => raise (S3Error "NoSuchKey") w
           end
  end.

(** [remove_object]: whether removing an absent key is an error depends on
    the provider ([remove_missing_raises]). *)
Definition remove_object (e : env) (key : string) : M unit :=
  match store_fault e with
  | Some x => raise x
  | None =>
      λ w, match bucket w !! key with
           | None =>
               if remove_missing_raises e then raise (S3Error "NoSuchKey") w
               else emit (EvRemove key) w
           | Some _ =>
               (set_bucket (delete key (bucket w)) ;; emit (EvRemove key)) w
           end
  end.

(** [HTTPResponse.stream(amt)]: successive reads of at most [amt] bytes,
    empty reads skipped, until the body is exhausted. *)
Fixpoint stream_fuel (fuel : nat) (amt : nat) (data : bytes) : list bytes :=
  match fuel with
  | O => []
  | S fuel' =>
      match data with
      | [] => []
      | _ => take amt data :: stream_fuel fuel' amt (drop amt data)
      end
  end.

Definition stream (amt : nat) (data : bytes) : list bytes :=
  stream_fuel (List.length data) amt data.

(** ** SQLite statements on [files] *)

Definition set_db (rows : list Row.t) (seq : Z) : M unit :=
  λ w, (Ok tt, {| bucket := bucket w; db_rows := rows;
                  db_seq := seq; log := log w |}).

Definition key_taken (key : string) (rows : list Row.t) : bool :=
  existsb (λ r, String.eqb (Row.minio_object_key r) key) rows.

Definition max_rowid (rows : list Row.t) : Z :=
  foldr (λ r m, Z.max (Row.id r) m) 0 rows.

(** AUTOINCREMENT: one more than the largest rowid ever used. *)
Definition next_rowid (w : world) : Z :=
  Z.max (db_seq w) (max_rowid (db_rows w)) + 1.

(** [INSERT INTO files (name, key, content_type, size) VALUES (?,?,?,?)],
    [commit], and [cursor.lastrowid]. *)
Definition insert_file (e : env) (file_name key : string)
    (content_type : option string) (size : option Z) : M Z :=
  match db_fault e with
  | Some x => raise x
  | None =>
      λ w,
        if key_taken key (db_rows w) then
          raise (IntegrityError "UNIQUE constraint failed: files.minio_object_key") w
        else
          let i := next_rowid w in
          (set_db (db_rows w ++ [Row.mk i file_name key content_type size
                                        (current_timestamp e)]) i ;;
           emit (EvInsert i key) ;;
           ret i) w
  end.

Definition overflow : exn :=
  OverflowError "Python int too large to convert to SQLite INTEGER".

(** [SELECT ... FROM files WHERE id = ?] and [fetchone].  Binding an id
    outside the signed 64-bit range raises [OverflowError].  Row ids are
    64-bit integers, so such an id has no row; the range is looked at only
    when no row is found, which makes no difference on a table whose ids are
    in range ([select_by_id_binds_first] below). *)
Definition select_by_id (file_id : Z) : M (option Row.t) :=
  λ w, match List.find (λ r, Z.eqb (Row.id r) file_id) (db_rows w) with
       | Some row => (Ok (Some row), w)
       | None =>
           if in_int64 file_id then (Ok None, w)
           else (Raise overflow, w)
       end.

(** [DELETE FROM files WHERE id = ?]; the value is [cursor.rowcount]. *)
Definition delete_by_id (e : env) (file_id : Z) : M Z :=
  match db_fault e with
  | Some x => raise x
  | None =>
      λ w,
        let kept := List.filter (λ r, negb (Z.eqb (Row.id r) file_id)) (db_rows w) in
        let n := Z.of_nat (List.length (db_rows w)) - Z.of_nat (List.length kept) in
        (set_db kept (db_seq w) ;; emit (EvDelete file_id n) ;; ret n) w
  end.

(** [ORDER BY created_at DESC]: newest first. *)
Definition newer_first (a b : Row.t) : Prop := Row.created_at b ≤ Row.created_at a.

#[global] Instance newer_first_dec : RelDecision newer_first.
Proof. intros a b. unfold newer_first. apply _. Defined.

Definition select_all_newest_first : M (list Row.t) :=
  λ w, (Ok (merge_sort newer_first (db_rows w)), w).

(** The other request of a lost race: it removed the blob and the row of
    [file_id] after this request read the row. *)
Definition interleave (e : env) (file_id : Z) : M unit :=
  if concurrent_delete e then
    λ w, match List.find (λ r, Z.eqb (Row.id r) file_id) (db_rows w) with
         | Some r =>
             (Ok tt,
              {| bucket := delete (Row.minio_object_key r) (bucket w);
                 db_rows := List.filter (λ r, negb (Z.eqb (Row.id r) file_id)) (db_rows w);
                 db_seq := db_seq w; log := log w |})
         | None => (Ok tt, w)
         end
  else ret tt.

(** ** Request and response values *)

Module UploadFile.
Record t : Type := mk {
  filename : string;
  content_type : option string;
  content : bytes }.
End UploadFile.

Module StreamingResponse.
Record t : Type := mk {
  body : list bytes;
  media_type : option string;
  headers : list (string * string) }.

(** The response writes its headers, and its media type as [content-type],
    with [.encode("latin-1")]. *)
Definition encodable (media_type : option string)
    (headers : list (string * string)) : bool :=
  forallb (λ h, latin1 (fst h) && latin1 (snd h)) headers &&
  match media_type with
  | Some m => latin1 m
  | None => true
  end.

(** [StreamingResponse(content, media_type=..., headers=...)] *)
Definition init (content : list bytes) (media_type : option string)
    (headers : list (string * string)) : result t :=
  if encodable media_type headers then Ok (mk content media_type headers)
  else Raise UnicodeEncodeError.
End StreamingResponse.

Definition dquote : string := String (ascii_of_nat 34) EmptyString.

(** [{"Content-Disposition": f'attachment; filename="{name}"'}] *)
Definition attachment_headers (name : string) : list (string * string) :=
  [("Content-Disposition"%string,
    "attachment; filename=" +:+ dquote +:+ name +:+ dquote)].

(** [{"message": f"File {file_id} deleted successfully"}] *)
Inductive message : Type :=
| FileDeleted (file_id : Z).

Definition len (b : bytes) : Z := Z.of_nat (List.length b).

(** ** app.py: the monolithic application *)

Module app.

Module FileMetadata.
Record t : Type := mk {
  id : Z;
  filename : string;
  minio_object_key : string;
  content_type : option string;
  size : option Z;
  created_at : Z }.
End FileMetadata.

Module FileUploadResponse.
Record t : Type := mk {
  id : Z;
  filename : string;
  minio_object_key : string;
  message : string }.
End FileUploadResponse.

Definition object_key_of (e : env) (file : UploadFile.t) : string :=
  uuid4 e +:+ "_" +:+ UploadFile.filename file.

Definition upload_file (e : env) (file : UploadFile.t) : M FileUploadResponse.t :=
  try_except
    (let object_key := object_key_of e file in
     let file_content := UploadFile.content file in
     let file_size := len file_content in
     put_object e object_key file_content file_size
       (or_else (UploadFile.content_type file) octet_stream) ;;
     file_id <- insert_file e (UploadFile.filename file) object_key
                  (UploadFile.content_type file) (Some file_size) ;;
     ret (FileUploadResponse.mk file_id (UploadFile.filename file) object_key
            "File uploaded successfully"))
    (λ ex, match ex with
           | S3Error _ => raise (HTTPException 500 (FString "MinIO error: " ex))
           | _ => raise (HTTPException 500 (FString "Upload error: " ex))
           end).

Definition metadata_of_row (row : Row.t) : FileMetadata.t :=
  FileMetadata.mk (Row.id row) (Row.file_name row) (Row.minio_object_key row)
    (Row.content_type row) (Row.size row) (Row.created_at row).

Definition list_files : M (list FileMetadata.t) :=
  try_except
    (rows <- select_all_newest_first ;;
     ret (metadata_of_row <$> rows))
    (λ ex, raise (HTTPException 500 (FString "Error listing files: " ex))).

Definition download_file (e : env) (file_id : Z) : M StreamingResponse.t :=
  try_except
    (row <- select_by_id file_id ;;
     match row with
     | None => raise (HTTPException 404 (Literal "File not found"))
     | Some row =>
         let filename := Row.file_name row in
         let object_key := Row.minio_object_key row in
         let content_type := or_else (Row.content_type row) octet_stream in
         response <- get_object e object_key ;;
         lift (StreamingResponse.init (stream (32 * 1024) response)
                 (Some content_type) (attachment_headers filename))
     end)
    (λ ex, match ex with
           | S3Error _ => raise (HTTPException 500 (FString "MinIO error: " ex))
           | HTTPException _ _ => raise ex
           | _ => raise (HTTPException 500 (FString "Download error: " ex))
           end).

Definition delete_file (e : env) (file_id : Z) : M message :=
  try_except
    (row <- select_by_id file_id ;;
     match row with
     | None => raise (HTTPException 404 (Literal "File not found"))
     | Some row =>
         let object_key := Row.minio_object_key row in
         (* a concurrent request may run between the SELECT and the removal *)
         interleave e file_id ;;
         remove_object e object_key ;;
         delete_by_id e file_id ;;
         ret (FileDeleted file_id)
     end)
    (λ ex, match ex with
           | S3Error _ => raise (HTTPException 500 (FString "MinIO error: " ex))
           | HTTPException _ _ => raise ex
           | _ => raise (HTTPException 500 (FString "Delete error: " ex))
           end).

End app.

(** ** models/file_model.py *)

Module file_model.

Module FileMetadata.
Record t : Type := mk {
  id : Z;
  file_name : string;
  minio_object_key : string;
  content_type : option string;
  size : option Z;
  created_at : Z }.

(** The pydantic constructor.  [content_type] and [size] default to
    [None]; [created_at] is declared without a default, so a call that
    does not pass it fails validation. *)
Definition init (id : Z) (file_name minio_object_key : string)
    (content_type : option string) (size : option Z)
    (created_at : option Z) : result t :=
  match created_at with
  | Some ts => Ok (mk id file_name minio_object_key content_type size ts)
  | None => Raise (ValidationError "created_at")
  end.

(** [file["minio_object_key"]]: a pydantic model is not subscriptable. *)
Definition getitem (file : t) (key : string) : result string :=
  Raise (TypeError "'FileMetadata' object is not subscriptable").
End FileMetadata.

(** What [main.py] passes as [id=]: the value [add_file_metadata] returned. *)
Inductive id_arg : Type :=
| IdInt (n : Z)
| IdNone
| IdModel (m : FileMetadata.t).

Module FileUploadResponse.
Record t : Type := mk {
  id : Z;
  file_name : string;
  minio_object_key : string;
  message : string }.

Definition init (id : id_arg) (file_name minio_object_key message : string)
    : result t :=
  match id with
  | IdInt n => Ok (mk n file_name minio_object_key message)
  | _ => Raise (ValidationError "id")
  end.
End FileUploadResponse.

End file_model.

(** ** services/minio_service.py
    The connection settings every function takes select the one configured
    bucket; they are not repeated here. *)

Module minio_service.

Definition object_key_of (e : env) (file : UploadFile.t) : string :=
  let file_extension := split_dot_last (UploadFile.filename file) in
  uuid4 e +:+ "_file." +:+ file_extension.

Definition upload_file_to_minio (e : env) (file : UploadFile.t)
    : M (string * string * Z * string) :=
  let object_key := object_key_of e file in
  let file_content := UploadFile.content file in
  let file_size := len file_content in
  let content_type := or_else (UploadFile.content_type file) octet_stream in
  put_object e object_key file_content file_size content_type ;;
  ret (UploadFile.filename file, object_key, file_size, content_type).

(** [response.stream()]: urllib3's default chunk is 2**16 bytes. *)
Definition download_file_from_minio (e : env) (object_key : string)
    : M (list bytes) :=
  response <- get_object e object_key ;;
  ret (stream (2 ^ 16) response).

Definition delete_file_from_minio (e : env) (object_key : string) : M unit :=
  remove_object e object_key.

End minio_service.

(** ** services/database_service.py *)

Module database_service.
Import file_model.

Definition get_file_metadata (file_id : Z) : M (option FileMetadata.t) :=
  row <- select_by_id file_id ;;
  match row with
  | None => ret None
  | Some row =>
      file <- lift (FileMetadata.init file_id (Row.file_name row)
                      (Row.minio_object_key row) (Row.content_type row)
                      None None) ;;
      ret (Some file)
  end.

Definition add_file_metadata (e : env) (file_name object_key : string)
    (content_type : option string) (file_size : option Z)
    : M (option FileMetadata.t) :=
  file_id <- insert_file e file_name object_key content_type file_size ;;
  get_file_metadata file_id.

Definition metadata_of_row (row : Row.t) : result FileMetadata.t :=
  FileMetadata.init (Row.id row) (Row.file_name row) (Row.minio_object_key row)
    (Row.content_type row) (Row.size row) (Some (Row.created_at row)).

Fixpoint collect {A B} (f : A → result B) (l : list A) : result (list B) :=
  match l with
  | [] => Ok []
  | x :: l' =>
      match f x with
      | Raise ex => Raise ex
      | Ok y =>
          match collect f l' with
          | Raise ex => Raise ex
          | Ok ys => Ok (y :: ys)
          end
      end
  end.

Definition list_files : M (list FileMetadata.t) :=
  rows <- select_all_newest_first ;;
  lift (collect metadata_of_row rows).

Definition delete_file_metadata (e : env) (file_id : Z) : M bool :=
  rowcount <- delete_by_id e file_id ;;
  ret (0 <? rowcount).

End database_service.

(** ** main.py: the layered application *)

Module main.
Import file_model.

(** [except Exception as e: raise HTTPException(500, detail=str(e))];
    an [HTTPException] raised in the body is an [Exception] too. *)
Definition guarded {A} (body : M A) : M A :=
  try_except body (λ ex, raise (HTTPException 500 (FString "" ex))).

Definition upload_file (e : env) (file : UploadFile.t) : M FileUploadResponse.t :=
  guarded
    (r <- minio_service.upload_file_to_minio e file ;;
     let '(file_name, object_key, file_size, content_type) := r in
     file_id <- database_service.add_file_metadata e file_name object_key
                  (Some content_type) (Some file_size) ;;
     lift (FileUploadResponse.init
             (match file_id with Some m => IdModel m | None => IdNone end)
             file_name object_key "File uploaded successfully")).

Definition list_files_endpoint : M (list FileMetadata.t) :=
  guarded database_service.list_files.

Definition download_file (e : env) (file_id : Z) : M StreamingResponse.t :=
  guarded
    (file <- database_service.get_file_metadata file_id ;;
     match file with
     | None => raise (HTTPException 404 (Literal "File not found"))
     | Some file =>
         res <- minio_service.download_file_from_minio e
                  (FileMetadata.minio_object_key file) ;;
         lift (StreamingResponse.init res (FileMetadata.content_type file)
                 (attachment_headers (FileMetadata.file_name file)))
     end).

(** Lines 100-106 of [delete_file]: what runs once the object key is known. *)
Definition delete_file_from (e : env) (file_id : Z) (object_key : string)
    : M message :=
  minio_service.delete_file_from_minio e object_key ;;
  deleted <- database_service.delete_file_metadata e file_id ;;
  if negb deleted then
    raise (HTTPException 404 (Literal "File not found in database"))
  else ret (FileDeleted file_id).

Definition delete_file (e : env) (file_id : Z) : M message :=
  guarded
    (file <- database_service.get_file_metadata file_id ;;
     match file with
     | None => raise (HTTPException 404 (Literal "File not found in database"))
     | Some file =>
         object_key <- lift (FileMetadata.getitem file "minio_object_key") ;;
         (* a concurrent request may run here, as in [app.delete_file] *)
         interleave e file_id ;;
         delete_file_from e file_id object_key
     end).

End main.

(** The status line FastAPI answers with. *)
Definition status_of {A} (r : result A) : Z :=
  match r with
  | Ok _ => 200
  | Raise (HTTPException c _) => c
  | Raise _ => 500
  end.

(** ** Worlds the store calls lead to *)

Definition blob_of (file : UploadFile.t) : Blob.t :=
  Blob.mk (UploadFile.content file) (len (UploadFile.content file))
    (or_else (UploadFile.content_type file) octet_stream).

Definition put_blob (key : string) (b : Blob.t) (w : world) : world :=
  {| bucket := <[key := b]> (bucket w); db_rows := db_rows w;
     db_seq := db_seq w; log := log w ++ [EvPut key] |}.

Definition add_row (r : Row.t) (w : world) : world :=
  {| bucket := bucket w; db_rows := db_rows w ++ [r];
     db_seq := Row.id r;
     log := log w ++ [EvInsert (Row.id r) (Row.minio_object_key r)] |}.

Definition has_id (file_id : Z) (r : Row.t) : bool := Z.eqb (Row.id r) file_id.

Definition lookup_row (file_id : Z) (w : world) : option Row.t :=
  List.find (has_id file_id) (db_rows w).

Definition drop_row (file_id : Z) (w : world) : world :=
  let kept := List.filter (λ r, negb (has_id file_id r)) (db_rows w) in
  {| bucket := bucket w; db_rows := kept; db_seq := db_seq w;
     log := log w ++ [EvDelete file_id
                        (Z.of_nat (List.length (db_rows w)) -
                         Z.of_nat (List.length kept))] |}.

Definition drop_blob (key : string) (w : world) : world :=
  {| bucket := delete key (bucket w); db_rows := db_rows w;
     db_seq := db_seq w; log := log w ++ [EvRemove key] |}.

(** [cursor.rowcount] of the DELETE for [file_id] in [w]. *)
Definition rowcount (file_id : Z) (w : world) : Z :=
  Z.of_nat (List.length (db_rows w)) -
  Z.of_nat (List.length (List.filter (λ r, negb (has_id file_id r)) (db_rows w))).

(** The world after the other request of a lost race removed the blob and
    the row of [file_id]. *)
Definition lose_race (file_id : Z) (key : string) (w : world) : world :=
  {| bucket := delete key (bucket w);
     db_rows := List.filter (λ r, negb (has_id file_id r)) (db_rows w);
     db_seq := db_seq w; log := log w |}.

(** The row each variant writes for an upload. *)
Definition app_row (e : env) (file : UploadFile.t) (w : world) : Row.t :=
  Row.mk (next_rowid w) (UploadFile.filename file) (app.object_key_of e file)
    (UploadFile.content_type file) (Some (len (UploadFile.content file)))
    (current_timestamp e).

Definition main_row (e : env) (file : UploadFile.t) (w : world) : Row.t :=
  Row.mk (next_rowid w) (UploadFile.filename file)
    (minio_service.object_key_of e file)
    (Some (or_else (UploadFile.content_type file) octet_stream))
    (Some (len (UploadFile.content file))) (current_timestamp e).

Definition is_store_error (x : exn) : Prop :=
  match x with
  | S3Error _ | MaxRetryError => True
  | _ => False
  end.

Definition is_db_error (x : exn) : Prop :=
  match x with
  | IntegrityError _ | OperationalError _ => True
  | _ => False
  end.

(** The field-for-field reading of a monolithic record as a layered one. *)
Definition as_layered (m : app.FileMetadata.t) : file_model.FileMetadata.t :=
  file_model.FileMetadata.mk (app.FileMetadata.id m) (app.FileMetadata.filename m)
    (app.FileMetadata.minio_object_key m) (app.FileMetadata.content_type m)
    (app.FileMetadata.size m) (app.FileMetadata.created_at m).

(** What the [except] clauses of [app.py] turn an exception into. *)
Definition app_upload_error (x : exn) : exn :=
  match x with
  | S3Error _ => HTTPException 500 (FString "MinIO error: " x)
  | _ => HTTPException 500 (FString "Upload error: " x)
  end.

Definition app_error (prefix : string) (x : exn) : exn :=
  match x with
  | S3Error _ => HTTPException 500 (FString "MinIO error: " x)
  | HTTPException _ _ => x
  | _ => HTTPException 500 (FString prefix x)
  end.

(** What the single [except Exception] of [main.py] turns one into. *)
Definition main_error (x : exn) : exn := HTTPException 500 (FString "" x).

(** Whether the response that [app.download_file] builds for a record can be
    written: its [Content-Disposition] value and its media type are latin-1. *)
Definition response_encodable (row : Row.t) : bool :=
  StreamingResponse.encodable
    (Some (or_else (Row.content_type row) octet_stream))
    (attachment_headers (Row.file_name row)).

(** The same of the record that [app.upload_file] writes for a file. *)
Definition servable (file : UploadFile.t) : bool :=
  latin1 (UploadFile.filename file) &&
  latin1 (or_else (UploadFile.content_type file) octet_stream).

Definition starts_ascii (t : string) : bool :=
  match t with
  | EmptyString => true
  | String c _ => (N_of_ascii c <? 128)%N
  end.

Definition upload_committed (key : string) (file : UploadFile.t) (r : Row.t)
    (w : world) : world :=
  add_row r (put_blob key (blob_of file) w).

Definition layered_of_row (row : Row.t) : file_model.FileMetadata.t :=
  file_model.FileMetadata.mk (Row.id row) (Row.file_name row)
    (Row.minio_object_key row) (Row.content_type row) (Row.size row)
    (Row.created_at row).

(** Newest first, on what the two list endpoints answer. *)
Definition app_newer_first (a b : app.FileMetadata.t) : Prop :=
  app.FileMetadata.created_at b ≤ app.FileMetadata.created_at a.

Definition layered_newer_first (a b : file_model.FileMetadata.t) : Prop :=
  file_model.FileMetadata.created_at b ≤ file_model.FileMetadata.created_at a.

(** The INSERT of an upload raises: the statement fails, or the key is
    already in the table. *)
Definition insert_fails (e : env) (key : string) (w : world) : bool :=
  match db_fault e with
  | Some _ => true
  | None => key_taken key (db_rows w)
  end.

(** What an upload under [key] may do to the two stores, by what the
    environment lets through: [calls] are the calls it completed, in order. *)
Definition upload_effect (e : env) (key : string) (file : UploadFile.t)
    (w w' : world) (calls : list event) : Prop :=
  log w' = log w ++ calls ∧
  match store_fault e with
  | Some _ =>
      calls = [] ∧ bucket w' = bucket w ∧ db_rows w' = db_rows w
  | None =>
      bucket w' = <[key := blob_of file]> (bucket w) ∧
      if insert_fails e key w then
        calls = [EvPut key] ∧ db_rows w' = db_rows w
      else
        ∃ r, calls = [EvPut key; EvInsert (Row.id r) key] ∧
             db_rows w' = db_rows w ++ [r] ∧
             Row.minio_object_key r = key
  end.

(** The object store fails, when it does, with one of its own errors. *)
Definition store_errors_only (e : env) : bool :=
  match store_fault e with
  | None | Some (S3Error _) | Some MaxRetryError => true
  | Some _ => false
  end.

(** The body of a 200 answer, if the request got one. *)
Definition answer {A} (r : result A * world) : option A :=
  match fst r with
  | Ok a => Some a
  | Raise _ => None
  end.

(** In a list of completed calls, every INSERT of a row comes after the put
    of the blob its key names. *)
Definition put_precedes_insert (calls : list event) : Prop :=
  ∀ i k, EvInsert i k ∈ calls →
    ∃ pre post, calls = pre ++ EvPut k :: post ∧ EvInsert i k ∈ post.

Definition no_removal (calls : list event) : Prop :=
  ∀ k, EvRemove k ∉ calls.

(** ** Sample requests *)

Definition hi : bytes := [Byte.x68; Byte.x69].

Definition hello_txt : UploadFile.t := UploadFile.mk "hello.txt" None hi.

Definition hello_plain : UploadFile.t :=
  UploadFile.mk "hello.txt" (Some "text/plain"%string) [Byte.x68; Byte.x6f].

(** A file named by the euro sign (U+20AC, in UTF-8 the bytes E2 82 AC). *)
Definition euro_name : string :=
  String (ascii_of_nat 226) (String (ascii_of_nat 130)
    (String (ascii_of_nat 172) ".txt")).

Definition euro_txt : UploadFile.t := UploadFile.mk euro_name None hi.

Definition env1 : env := quiet "7d9f0b1e-5c3a-4e2b-9a61-0c8d2f4b6a10" 100.
Definition env2 : env := quiet "1b4e28ba-2fa1-41d2-883f-0016d3cca427" 101.

(** The table after one monolithic upload of [hello_txt]. *)
Definition one_file : world := snd (app.upload_file env1 hello_txt empty_world).

(** The table after one monolithic upload of [euro_txt]. *)
Definition one_euro_file : world :=
  snd (app.upload_file env1 euro_txt empty_world).

(** The same after one layered upload. *)
Definition one_file_layered : world :=
  snd (main.upload_file env1 hello_txt empty_world).

(** A record whose blob was removed out of band. *)
Definition dangling : world :=
  {| bucket := ∅; db_rows := db_rows one_file; db_seq := db_seq one_file;
     log := [] |}.

Definition strict_store : env :=
  {| uuid4 := uuid4 env2; current_timestamp := 102; store_fault := None;
     remove_missing_raises := true; db_fault := None;
     concurrent_delete := false |}.

Definition store_down : env :=
  {| uuid4 := uuid4 env2; current_timestamp := 102;
     store_fault := Some MaxRetryError;
     remove_missing_raises := false; db_fault := None;
     concurrent_delete := false |}.

Definition db_locked : env :=
  {| uuid4 := uuid4 env2; current_timestamp := 102; store_fault := None;
     remove_missing_raises := false;
     db_fault := Some (OperationalError "database is locked");
     concurrent_delete := false |}.

Definition lost_race : env :=
  {| uuid4 := uuid4 env2; current_timestamp := 102; store_fault := None;
     remove_missing_raises := false; db_fault := None;
     concurrent_delete := true |}.

(** ** Requests and runs *)

Inductive variant : Type :=
| Monolithic   (* app.py *)
| Layered.     (* main.py *)

Inductive request : Type :=
| Upload (e : env) (file : UploadFile.t)     (* POST /files/ *)
| ListFiles                                  (* GET /files/ *)
| Download (e : env) (file_id : Z)           (* GET /files/{file_id} *)
| Delete (e : env) (file_id : Z).            (* DELETE /files/{file_id} *)

(** One request served by one of the two applications: the status it is
    answered with and the world it leaves. *)
Definition serve (v : variant) (r : request) (w : world) : Z * world :=
  match v, r with
  | Monolithic, Upload e file =>
      let x := app.upload_file e file w in (status_of (fst x), snd x)
  | Monolithic, ListFiles =>
      let x := app.list_files w in (status_of (fst x), snd x)
  | Monolithic, Download e file_id =>
      let x := app.download_file e file_id w in (status_of (fst x), snd x)
  | Monolithic, Delete e file_id =>
      let x := app.delete_file e file_id w in (status_of (fst x), snd x)
  | Layered, Upload e file =>
      let x := main.upload_file e file w in (status_of (fst x), snd x)
  | Layered, ListFiles =>
      let x := main.list_files_endpoint w in (status_of (fst x), snd x)
  | Layered, Download e file_id =>
      let x := main.download_file e file_id w in (status_of (fst x), snd x)
  | Layered, Delete e file_id =>
      let x := main.delete_file e file_id w in (status_of (fst x), snd x)
  end.

Fixpoint run (v : variant) (rs : list request) (w : world) : world :=
  match rs with
  | [] => w
  | r :: rs' => run v rs' (snd (serve v r w))
  end.

Fixpoint statuses (v : variant) (rs : list request) (w : world) : list Z :=
  match rs with
  | [] => []
  | r :: rs' => fst (serve v r w) :: statuses v rs' (snd (serve v r w))
  end.

(** The two stores without the call log. *)
Definition stores (w : world) : gmap string Blob.t * list Row.t * Z :=
  (bucket w, db_rows w, db_seq w).

(** The DELETE statement of the request, if it has one, does not fail. *)
Definition delete_commits (r : request) : bool :=
  match r with
  | Delete e _ => match db_fault e with None => true | Some _ => false end
  | _ => true
  end.

(** What one request can do to the two stores. *)
Inductive moved (commits : bool) (w w' : world) : Prop :=
| moved_nothing :
    stores w' = stores w → moved commits w w'
| moved_blob (key : string) (file : UploadFile.t) :
    stores w' = stores (put_blob key (blob_of file) w) → moved commits w w'
| moved_upload (key : string) (file : UploadFile.t) (r : Row.t) :
    key_taken key (db_rows w) = false →
    Row.id r = next_rowid w →
    Row.minio_object_key r = key →
    stores w' = stores (upload_committed key file r w) → moved commits w w'
| moved_delete (file_id : Z) (row : Row.t) :
    lookup_row file_id w = Some row →
    stores w' = stores (lose_race file_id (Row.minio_object_key row) w) →
    moved commits w w'
| moved_half_delete (file_id : Z) (row : Row.t) :
    commits = false →
    lookup_row file_id w = Some row →
    stores w' = stores (drop_blob (Row.minio_object_key row) w) →
    moved commits w w'.

(** Integrity of the table: ids and object keys are unique, ids are positive
    and not above the AUTOINCREMENT mark. *)
Definition table_ok (w : world) : Prop :=
  NoDup (Row.id <$> db_rows w) ∧
  NoDup (Row.minio_object_key <$> db_rows w) ∧
  Forall (λ r, 0 < Row.id r ≤ db_seq w) (db_rows w).

(** Every record has its blob. *)
Definition blobs_present (w : world) : Prop :=
  ∀ r, r ∈ db_rows w → is_Some (bucket w !! Row.minio_object_key r).

(** Every blob carries its own byte count and a content type. *)
Definition bucket_ok (w : world) : Prop :=
  ∀ k b, bucket w !! k = Some b →
    Blob.length b = len (Blob.data b) ∧ Blob.content_type b ≠ EmptyString.

(** Both stores take the upload: the put goes through and so does the
    INSERT. *)
Definition upload_accepted (e : env) (key : string) (w : world) : bool :=
  match store_fault e with
  | Some _ => false
  | None => negb (insert_fails e key w)
  end.

(** The world with one more completed call in its log. *)
Definition logged (ev : event) (w : world) : world :=
  {| bucket := bucket w; db_rows := db_rows w; db_seq := db_seq w;
     log := log w ++ [ev] |}.

(** An upload, a listing, a download of the uploaded record, its deletion,
    a listing and a second download: the requests of a client that stores a
    file, reads it back and removes it. *)
Definition store_read_remove (e : env) (file : UploadFile.t) (file_id : Z)
    : list request :=
  [Upload e file; ListFiles; Download e file_id; Delete e file_id; ListFiles;
   Download e file_id].

(** ** Startup: [init_db], [ensure_bucket], [lifespan]

    Before the first request the deployment may lack the table and the
    bucket.  A [site] is the database file (with or without the [files]
    table), the object store with all its buckets, and what has been printed.
    [app.py] and the two services have the same [init_db] and
    [ensure_bucket], up to where the settings come from. *)

Record site : Type := mkSite {
  site_table : option (list Row.t * Z);              (* rows, AUTOINCREMENT mark *)
  site_buckets : gmap string (gmap string Blob.t);
  stdout : list detail }.

(** What the startup calls run into. *)
Record boot_env : Type := mkBootEnv {
  create_table_fault : option exn;
  bucket_exists_fault : option exn;
  make_bucket_fault : option exn }.

Definition no_boot_faults : boot_env :=
  {| create_table_fault := None; bucket_exists_fault := None;
     make_bucket_fault := None |}.

Definition print (line : detail) (s : site) : site :=
  {| site_table := site_table s; site_buckets := site_buckets s;
     stdout := stdout s ++ [line] |}.

(** [CREATE TABLE IF NOT EXISTS files (...)] and [commit]. *)
Definition init_db (b : boot_env) (s : site) : result unit * site :=
  match create_table_fault b with
  | Some x => (Raise x, s)
  | None =>
      (Ok tt,
       match site_table s with
       | Some _ => s
       | None => {| site_table := Some ([], 0); site_buckets := site_buckets s;
                    stdout := stdout s |}
       end)
  end.

Definition ensure_bucket (b : boot_env) (MINIO_BUCKET : string) (s : site)
    : result unit * site :=
  let body :=
    match bucket_exists_fault b with
    | Some x => (Raise x, s)
    | None =>
        match site_buckets s !! MINIO_BUCKET with
        | None =>
            match make_bucket_fault b with
            | Some x => (Raise x, s)
            | None =>
                (Ok tt,
                 print (Literal ("Bucket '" +:+ MINIO_BUCKET +:+ "' created successfully"))
                   {| site_table := site_table s;
                      site_buckets := <[MINIO_BUCKET := ∅]> (site_buckets s);
                      stdout := stdout s |})
            end
        | Some _ =>
            (Ok tt, print (Literal ("Bucket '" +:+ MINIO_BUCKET +:+ "' already exists")) s)
        end
    end in
  match body with
  | (Raise (S3Error code), s') =>
      (Raise (S3Error code),
       print (FString "Error ensuring bucket: " (S3Error code)) s')
  | other => other
  end.

(** The startup half of [lifespan]. *)
Definition lifespan (b : boot_env) (MINIO_BUCKET : string) (s : site)
    : result unit * site :=
  match init_db b s with
  | (Ok _, s1) => ensure_bucket b MINIO_BUCKET s1
  | (Raise x, s1) => (Raise x, s1)
  end.

(** The world the handlers work on, once the table and the bucket exist. *)
Definition open_site (MINIO_BUCKET : string) (s : site) : option world :=
  match site_table s, site_buckets s !! MINIO_BUCKET with
  | Some (rows, seq), Some objects =>
      Some {| bucket := objects; db_rows := rows; db_seq := seq; log := [] |}
  | _, _ => None
  end.

Definition blank_site : site :=
  {| site_table := None; site_buckets := ∅; stdout := [] |}.

Definition store_unreachable : boot_env :=
  {| create_table_fault := None; bucket_exists_fault := Some MaxRetryError;
     make_bucket_fault := None |}.

Definition access_denied : boot_env :=
  {| create_table_fault := None; bucket_exists_fault := None;
     make_bucket_fault := Some (S3Error "AccessDenied") |}.

Fixpoint has_dot (s : string) : bool :=
  match s with
  | EmptyString => false
  | String c s' => Ascii.eqb c "."%char || has_dot s'
  end.

(** A run that uploads, reads, deletes and uploads again. *)
Definition sample_run : list request :=
  [Upload env1 hello_txt; Download env2 1; Delete env2 1;
   Upload env2 hello_plain; ListFiles].

(** * Properties *)

(** ** Strings that latin-1 can encode *)

Lemma latin1_append_upto (n : nat) (t : string) :
  starts_ascii t = true →
  ∀ s, (String.length s <= n)%nat → latin1 (s +:+ t) = latin1 s && latin1 t.
Proof.
  intros Ht. induction n as [|n IH]; intros s Hn.
  - destruct s; [reflexivity | simpl in Hn; lia].
  - destruct s as [|c s]; [reflexivity|].
    change (String c s +:+ t) with (String c (s +:+ t)). cbn [latin1].
    destruct (N_of_ascii c <? 128)%N.
    { apply IH. simpl in Hn. lia. }
    destruct ((N_of_ascii c =? 194)%N || (N_of_ascii c =? 195)%N); [|reflexivity].
    destruct s as [|c' s].
    + destruct t as [|c' t]; [reflexivity|].
      change ("" +:+ String c' t) with (String c' t).
      simpl in Ht. cbv beta iota.
      assert ((128 <=? N_of_ascii c')%N = false) as ->.
      { apply N.leb_gt. apply N.ltb_lt in Ht. lia. }
      reflexivity.
    + change (String c' s +:+ t) with (String c' (s +:+ t)).
      cbv beta iota. rewrite IH; [|simpl in Hn; lia].
      by rewrite andb_assoc.
Qed.

Lemma latin1_append (s t : string) :
  starts_ascii t = true → latin1 (s +:+ t) = latin1 s && latin1 t.
Proof. intros Ht. by apply (latin1_append_upto (String.length s)). Qed.

(** The [Content-Disposition] value can be encoded exactly when the file
    name can. *)
Lemma latin1_attachment (name : string) :
  latin1 ("attachment; filename=" +:+ dquote +:+ name +:+ dquote) = latin1 name.
Proof.
  change (latin1 (name +:+ dquote) = latin1 name).
  rewrite latin1_append; [|reflexivity].
  change (latin1 dquote) with true. by rewrite andb_true_r.
Qed.

Lemma response_encodable_eq (row : Row.t) :
  response_encodable row =
    latin1 (Row.file_name row) &&
    latin1 (or_else (Row.content_type row) octet_stream).
Proof.
  unfold response_encodable, StreamingResponse.encodable, attachment_headers.
  cbn [forallb fst snd].
  rewrite latin1_attachment.
  change (latin1 "Content-Disposition") with true.
  by rewrite andb_true_l, andb_true_r.
Qed.

(** ** Store calls *)

Section StoreCalls.
Variables (e : env) (w : world).

Lemma put_object_ok key data n ct :
  store_fault e = None →
  put_object e key data n ct w = (Ok tt, put_blob key (Blob.mk data n ct) w).
Proof. intros H. unfold put_object. rewrite H. reflexivity. Qed.

Lemma put_object_fault key data n ct x :
  store_fault e = Some x →
  put_object e key data n ct w = (Raise x, w).
Proof. intros H. unfold put_object. rewrite H. reflexivity. Qed.

Lemma get_object_ok key b :
  store_fault e = None → bucket w !! key = Some b →
  ∃ w', get_object e key w = (Ok (Blob.data b), w') ∧
        bucket w' = bucket w ∧ db_rows w' = db_rows w ∧
        log w' = log w ++ [EvGet key].
Proof.
  intros H Hb. unfold get_object. rewrite H, Hb. eexists. split; [reflexivity|].
  simpl. auto.
Qed.

Lemma get_object_missing key :
  store_fault e = None → bucket w !! key = None →
  get_object e key w = (Raise (S3Error "NoSuchKey"), w).
Proof. intros H Hb. unfold get_object. rewrite H, Hb. reflexivity. Qed.

Lemma get_object_fault key x :
  store_fault e = Some x → get_object e key w = (Raise x, w).
Proof. intros H. unfold get_object. rewrite H. reflexivity. Qed.

Lemma insert_file_ok name key ct sz :
  db_fault e = None → key_taken key (db_rows w) = false →
  insert_file e name key ct sz w =
    (Ok (next_rowid w),
     add_row (Row.mk (next_rowid w) name key ct sz (current_timestamp e)) w).
Proof. intros H Hk. unfold insert_file. rewrite H, Hk. reflexivity. Qed.

Lemma insert_file_fault name key ct sz x :
  db_fault e = Some x → insert_file e name key ct sz w = (Raise x, w).
Proof. intros H. unfold insert_file. rewrite H. reflexivity. Qed.

Lemma insert_file_duplicate name key ct sz :
  db_fault e = None → key_taken key (db_rows w) = true →
  insert_file e name key ct sz w =
    (Raise (IntegrityError "UNIQUE constraint failed: files.minio_object_key"), w).
Proof. intros H Hk. unfold insert_file. rewrite H, Hk. reflexivity. Qed.

(** A failed INSERT raises a database error, changes nothing. *)
Lemma insert_file_raises name key ct sz x w' :
  insert_file e name key ct sz w = (Raise x, w') →
  w' = w ∧ (db_fault e = Some x ∨
            (db_fault e = None ∧ key_taken key (db_rows w) = true)).
Proof.
  unfold insert_file. destruct (db_fault e) as [y|] eqn:Hf.
  - intros [= <- <-]. auto.
  - destruct (key_taken key (db_rows w)) eqn:Hk; [|discriminate].
    intros [= <- <-]. auto.
Qed.

Lemma select_by_id_found file_id row :
  lookup_row file_id w = Some row →
  select_by_id file_id w = (Ok (Some row), w).
Proof.
  unfold lookup_row, has_id, select_by_id. intros H.
  change (List.find (λ r, Row.id r =? file_id) (db_rows w) = Some row) in H.
  rewrite H. reflexivity.
Qed.

Lemma select_by_id_missing file_id :
  lookup_row file_id w = None → in_int64 file_id = true →
  select_by_id file_id w = (Ok None, w).
Proof.
  unfold lookup_row, has_id, select_by_id. intros H Hr.
  change (List.find (λ r, Row.id r =? file_id) (db_rows w) = None) in H.
  rewrite H, Hr. reflexivity.
Qed.

Lemma select_by_id_overflow file_id :
  lookup_row file_id w = None → in_int64 file_id = false →
  select_by_id file_id w = (Raise overflow, w).
Proof.
  unfold lookup_row, has_id, select_by_id. intros H Hr.
  change (List.find (λ r, Row.id r =? file_id) (db_rows w) = None) in H.
  rewrite H, Hr. reflexivity.
Qed.

(** The SELECT changes nothing, answers with the row of that id when there
    is one and never with another row. *)
Lemma select_by_id_cases file_id :
  match lookup_row file_id w with
  | Some row => select_by_id file_id w = (Ok (Some row), w)
  | None => select_by_id file_id w = (Ok None, w) ∧ in_int64 file_id = true ∨
            select_by_id file_id w = (Raise overflow, w) ∧
            in_int64 file_id = false
  end.
Proof.
  destruct (lookup_row file_id w) as [row|] eqn:H.
  - by apply select_by_id_found.
  - destruct (in_int64 file_id) eqn:Hr.
    + left. split; [by apply select_by_id_missing | done].
    + right. split; [by apply select_by_id_overflow | done].
Qed.

Lemma delete_by_id_ok file_id :
  db_fault e = None →
  ∃ n, delete_by_id e file_id w = (Ok n, drop_row file_id w).
Proof. intros H. unfold delete_by_id. rewrite H. eexists. reflexivity. Qed.

Lemma delete_by_id_fault file_id x :
  db_fault e = Some x → delete_by_id e file_id w = (Raise x, w).
Proof. intros H. unfold delete_by_id. rewrite H. reflexivity. Qed.
End StoreCalls.

(** ** Streaming *)

Lemma stream_fuel_concat (amt : nat) (fuel : nat) (data : bytes) :
  (0 < amt)%nat → (List.length data ≤ fuel)%nat →
  List.concat (stream_fuel fuel amt data) = data.
Proof.
  intros Hamt. revert data.
  induction fuel as [|fuel IH]; intros data Hlen.
  - destruct data; [reflexivity | simpl in Hlen; lia].
  - destruct data as [|b data]; [reflexivity|].
    change (stream_fuel (S fuel) amt (b :: data))
      with (take amt (b :: data) :: stream_fuel fuel amt (drop amt (b :: data))).
    rewrite concat_cons, IH.
    + apply take_drop.
    + rewrite length_drop. simpl in *. lia.
Qed.

Lemma stream_concat (amt : nat) (data : bytes) :
  (0 < amt)%nat → List.concat (stream amt data) = data.
Proof. intros H. apply stream_fuel_concat; [exact H | reflexivity]. Qed.

(** ** Row identifiers *)

Lemma max_rowid_bound (rows : list Row.t) (r : Row.t) :
  r ∈ rows → Row.id r ≤ max_rowid rows.
Proof.
  induction rows as [|r' rows IH]; intros Hin.
  - inversion Hin.
  - apply elem_of_cons in Hin as [-> | Hin]; simpl.
    + lia.
    + specialize (IH Hin). lia.
Qed.

Lemma next_rowid_fresh (w : world) (r : Row.t) :
  r ∈ db_rows w → Row.id r < next_rowid w.
Proof.
  intros Hin. apply max_rowid_bound in Hin. unfold next_rowid. lia.
Qed.

Lemma find_none_app_last (rows : list Row.t) (r : Row.t) (p : Row.t → bool) :
  (∀ r', r' ∈ rows → p r' = false) → p r = true →
  List.find p (rows ++ [r]) = Some r.
Proof.
  intros Hno Hp. induction rows as [|r' rows IH]; simpl.
  - rewrite Hp. reflexivity.
  - rewrite (Hno r') by (apply elem_of_cons; auto).
    apply IH. intros r'' Hin. apply Hno. apply elem_of_cons; auto.
Qed.

Lemma lookup_row_add_row (r : Row.t) (w : world) :
  Row.id r = next_rowid w →
  lookup_row (Row.id r) (add_row r w) = Some r.
Proof.
  intros Hid. unfold lookup_row, add_row; simpl.
  apply find_none_app_last.
  - intros r' Hin. apply next_rowid_fresh in Hin.
    unfold has_id. apply Z.eqb_neq. lia.
  - unfold has_id. apply Z.eqb_refl.
Qed.

Lemma lookup_row_put_blob file_id key b w :
  lookup_row file_id (put_blob key b w) = lookup_row file_id w.
Proof. reflexivity. Qed.

Lemma lookup_row_Some file_id w r :
  lookup_row file_id w = Some r → r ∈ db_rows w ∧ Row.id r = file_id.
Proof.
  unfold lookup_row. intros H. apply find_some in H as [Hin Hid].
  split; [by apply list_elem_of_In | by apply Z.eqb_eq].
Qed.

(** On a table whose row ids are 64-bit integers, as the row ids of SQLite
    are, [select_by_id] does what the statement does: it binds the id first,
    which raises outside the range, and looks the row up after that. *)
Lemma select_by_id_binds_first file_id w :
  Forall (λ r, in_int64 (Row.id r) = true) (db_rows w) →
  select_by_id file_id w =
    if in_int64 file_id then (Ok (lookup_row file_id w), w)
    else (Raise overflow, w).
Proof.
  intros Hall. destruct (lookup_row file_id w) as [row|] eqn:Hrow.
  - rewrite (select_by_id_found w file_id row Hrow).
    apply lookup_row_Some in Hrow as [Hin Hid].
    rewrite Forall_forall in Hall. specialize (Hall row Hin).
    rewrite Hid in Hall. by rewrite Hall.
  - destruct (in_int64 file_id) eqn:Hr.
    + by apply select_by_id_missing.
    + by apply select_by_id_overflow.
Qed.

Lemma lookup_row_drop_row file_id w :
  lookup_row file_id (drop_row file_id w) = None.
Proof.
  unfold lookup_row, drop_row; simpl.
  induction (db_rows w) as [|r rows IH]; simpl; [reflexivity|].
  destruct (has_id file_id r) eqn:Hr; simpl; [exact IH|].
  rewrite Hr. exact IH.
Qed.

Lemma key_taken_false (key : string) (rows : list Row.t) (r : Row.t) :
  key_taken key rows = false → r ∈ rows → Row.minio_object_key r ≠ key.
Proof.
  unfold key_taken. intros Hk Hin Heq.
  assert (existsb (λ r, String.eqb (Row.minio_object_key r) key) rows = true) as Ht.
  { apply existsb_exists. exists r. split; [by apply list_elem_of_In|].
    by apply String.eqb_eq. }
  congruence.
Qed.

Lemma key_taken_true (key : string) (rows : list Row.t) :
  key_taken key rows = true → ∃ r, r ∈ rows ∧ Row.minio_object_key r = key.
Proof.
  unfold key_taken. intros H. apply existsb_exists in H as (r & Hin & Heq).
  exists r. split; [by apply list_elem_of_In | by apply String.eqb_eq].
Qed.

(** ** Upload, step by step *)

Section Upload.
Variables (e : env) (file : UploadFile.t) (w : world).

Let akey := app.object_key_of e file.
Let mkey := minio_service.object_key_of e file.

Lemma app_upload_store_fault x :
  store_fault e = Some x →
  app.upload_file e file w = (Raise (app_upload_error x), w).
Proof.
  intros H. unfold app.upload_file, try_except, bind.
  rewrite (put_object_fault _ _ _ _ _ _ x H). by destruct x.
Qed.

Lemma app_upload_db_fault x :
  store_fault e = None → db_fault e = Some x →
  app.upload_file e file w =
    (Raise (app_upload_error x), put_blob akey (blob_of file) w).
Proof.
  intros Hs Hd. unfold app.upload_file, try_except, bind.
  rewrite (put_object_ok _ _ _ _ _ _ Hs).
  rewrite (insert_file_fault _ _ _ _ _ _ x Hd). by destruct x.
Qed.

Lemma app_upload_duplicate :
  store_fault e = None → db_fault e = None →
  key_taken akey (db_rows w) = true →
  app.upload_file e file w =
    (Raise (HTTPException 500
              (FString "Upload error: "
                 (IntegrityError "UNIQUE constraint failed: files.minio_object_key"))),
     put_blob akey (blob_of file) w).
Proof.
  intros Hs Hd Hk. unfold app.upload_file, try_except, bind.
  rewrite (put_object_ok _ _ _ _ _ _ Hs).
  rewrite insert_file_duplicate; [reflexivity | exact Hd | exact Hk].
Qed.

Lemma app_upload_ok :
  store_fault e = None → db_fault e = None →
  key_taken akey (db_rows w) = false →
  app.upload_file e file w =
    (Ok (app.FileUploadResponse.mk (next_rowid w) (UploadFile.filename file)
           akey "File uploaded successfully"),
     upload_committed akey file (app_row e file w) w).
Proof.
  intros Hs Hd Hk. unfold app.upload_file, try_except, bind.
  rewrite (put_object_ok _ _ _ _ _ _ Hs).
  rewrite insert_file_ok; [reflexivity | exact Hd | exact Hk].
Qed.

(** A 200 answer means both store calls went through. *)
Lemma app_upload_inv resp w' :
  app.upload_file e file w = (Ok resp, w') →
  store_fault e = None ∧ db_fault e = None ∧
  key_taken akey (db_rows w) = false ∧
  resp = app.FileUploadResponse.mk (next_rowid w) (UploadFile.filename file)
           akey "File uploaded successfully" ∧
  w' = upload_committed akey file (app_row e file w) w.
Proof.
  intros H.
  destruct (store_fault e) as [x|] eqn:Hs.
  { rewrite (app_upload_store_fault x Hs) in H. discriminate. }
  destruct (db_fault e) as [x|] eqn:Hd.
  { rewrite (app_upload_db_fault x Hs Hd) in H. discriminate. }
  destruct (key_taken akey (db_rows w)) eqn:Hk.
  { rewrite (app_upload_duplicate Hs Hd Hk) in H. discriminate. }
  rewrite (app_upload_ok Hs Hd Hk) in H. injection H as <- <-. auto.
Qed.

Lemma minio_upload_ok :
  store_fault e = None →
  minio_service.upload_file_to_minio e file w =
    (Ok (UploadFile.filename file, mkey, len (UploadFile.content file),
         or_else (UploadFile.content_type file) octet_stream),
     put_blob mkey (blob_of file) w).
Proof.
  intros Hs. unfold minio_service.upload_file_to_minio, bind.
  rewrite (put_object_ok _ _ _ _ _ _ Hs). reflexivity.
Qed.

Lemma minio_upload_fault x :
  store_fault e = Some x →
  minio_service.upload_file_to_minio e file w = (Raise x, w).
Proof.
  intros Hs. unfold minio_service.upload_file_to_minio, bind.
  rewrite (put_object_fault _ _ _ _ _ _ x Hs). reflexivity.
Qed.

Lemma main_upload_store_fault x :
  store_fault e = Some x →
  main.upload_file e file w = (Raise (main_error x), w).
Proof.
  intros H. unfold main.upload_file, main.guarded, try_except, bind.
  rewrite (minio_upload_fault x H). reflexivity.
Qed.

Lemma main_upload_db_fault x :
  store_fault e = None → db_fault e = Some x →
  main.upload_file e file w =
    (Raise (main_error x), put_blob mkey (blob_of file) w).
Proof.
  intros Hs Hd. unfold main.upload_file, main.guarded, try_except, bind.
  rewrite (minio_upload_ok Hs).
  unfold database_service.add_file_metadata, bind.
  rewrite (insert_file_fault _ _ _ _ _ _ x Hd). reflexivity.
Qed.

Lemma main_upload_duplicate :
  store_fault e = None → db_fault e = None →
  key_taken mkey (db_rows w) = true →
  main.upload_file e file w =
    (Raise (main_error
              (IntegrityError "UNIQUE constraint failed: files.minio_object_key")),
     put_blob mkey (blob_of file) w).
Proof.
  intros Hs Hd Hk. unfold main.upload_file, main.guarded, try_except, bind.
  rewrite (minio_upload_ok Hs).
  unfold database_service.add_file_metadata, bind.
  rewrite insert_file_duplicate; [reflexivity | exact Hd | exact Hk].
Qed.

(** The layered upload writes the blob and the row, and then fails in
    [add_file_metadata]'s read-back. *)
Lemma main_upload_committed :
  store_fault e = None → db_fault e = None →
  key_taken mkey (db_rows w) = false →
  main.upload_file e file w =
    (Raise (main_error (ValidationError "created_at")),
     upload_committed mkey file (main_row e file w) w).
Proof.
  intros Hs Hd Hk. unfold main.upload_file, main.guarded, try_except, bind.
  rewrite (minio_upload_ok Hs).
  unfold database_service.add_file_metadata, bind.
  rewrite insert_file_ok; [| exact Hd | exact Hk].
  unfold database_service.get_file_metadata, bind.
  change (next_rowid (put_blob mkey (blob_of file) w)) with (next_rowid w).
  pose proof (lookup_row_add_row (main_row e file w)
                (put_blob mkey (blob_of file) w) eq_refl) as Hl.
  simpl in Hl. unfold main_row in Hl. fold mkey in Hl.
  unfold mkey in *. rewrite (select_by_id_found _ _ _ Hl). reflexivity.
Qed.

Lemma main_upload_never_ok resp w' :
  main.upload_file e file w ≠ (Ok resp, w').
Proof.
  destruct (store_fault e) as [x|] eqn:Hs.
  { rewrite (main_upload_store_fault x Hs). discriminate. }
  destruct (db_fault e) as [x|] eqn:Hd.
  { rewrite (main_upload_db_fault x Hs Hd). discriminate. }
  destruct (key_taken mkey (db_rows w)) eqn:Hk.
  { rewrite (main_upload_duplicate Hs Hd Hk). discriminate. }
  rewrite (main_upload_committed Hs Hd Hk). discriminate.
Qed.
End Upload.

(** ** Removing a blob *)

Section Remove.
Variables (e : env) (key : string) (w : world).

Lemma remove_object_present b :
  store_fault e = None → bucket w !! key = Some b →
  remove_object e key w = (Ok tt, drop_blob key w).
Proof. intros Hs Hb. unfold remove_object. rewrite Hs, Hb. reflexivity. Qed.

Lemma remove_object_absent_lenient :
  store_fault e = None → bucket w !! key = None →
  remove_missing_raises e = false →
  remove_object e key w = (Ok tt, drop_blob key w).
Proof.
  intros Hs Hb Hl. unfold remove_object. rewrite Hs, Hb, Hl.
  unfold emit, drop_blob. by rewrite (delete_id _ _ Hb).
Qed.

Lemma remove_object_absent_strict :
  store_fault e = None → bucket w !! key = None →
  remove_missing_raises e = true →
  remove_object e key w = (Raise (S3Error "NoSuchKey"), w).
Proof. intros Hs Hb Hl. unfold remove_object. by rewrite Hs, Hb, Hl. Qed.

Lemma remove_object_fault x :
  store_fault e = Some x → remove_object e key w = (Raise x, w).
Proof. intros Hs. unfold remove_object. by rewrite Hs. Qed.

(** Every outcome of [remove_object]: it either raises and changes
    nothing, or returns with the key gone. *)
Lemma remove_object_cases :
  (∃ x, remove_object e key w = (Raise x, w) ∧
        (store_fault e = Some x ∨
         (store_fault e = None ∧ bucket w !! key = None ∧
          remove_missing_raises e = true ∧ x = S3Error "NoSuchKey"))) ∨
  (remove_object e key w = (Ok tt, drop_blob key w) ∧ store_fault e = None ∧
   (is_Some (bucket w !! key) ∨ remove_missing_raises e = false)).
Proof.
  destruct (store_fault e) as [x|] eqn:Hs.
  { left. exists x. split; [by apply remove_object_fault | by left]. }
  destruct (bucket w !! key) as [b|] eqn:Hb.
  { right. split; [by apply (remove_object_present b) | eauto]. }
  destruct (remove_missing_raises e) eqn:Hl.
  - left. eexists. split; [by apply remove_object_absent_strict | right; auto].
  - right. split; [by apply remove_object_absent_lenient | auto].
Qed.
End Remove.

(** ** Download and delete, step by step *)

Section Lookup.
Variables (e : env) (file_id : Z) (w : world).

Lemma app_download_missing :
  lookup_row file_id w = None → in_int64 file_id = true →
  app.download_file e file_id w =
    (Raise (HTTPException 404 (Literal "File not found")), w).
Proof.
  intros H Hr. unfold app.download_file, try_except, bind.
  rewrite (select_by_id_missing _ _ H Hr). reflexivity.
Qed.

Lemma app_download_overflow :
  lookup_row file_id w = None → in_int64 file_id = false →
  app.download_file e file_id w =
    (Raise (app_error "Download error: " overflow), w).
Proof.
  intros H Hr. unfold app.download_file, try_except, bind.
  rewrite (select_by_id_overflow _ _ H Hr). reflexivity.
Qed.

Lemma app_download_fault row x :
  lookup_row file_id w = Some row → store_fault e = Some x →
  app.download_file e file_id w = (Raise (app_error "Download error: " x), w).
Proof.
  intros H Hs. unfold app.download_file, try_except, bind.
  rewrite (select_by_id_found _ _ _ H).
  rewrite (get_object_fault _ _ _ x Hs). by destruct x.
Qed.

Lemma app_download_blob_missing row :
  lookup_row file_id w = Some row → store_fault e = None →
  bucket w !! Row.minio_object_key row = None →
  app.download_file e file_id w =
    (Raise (HTTPException 500 (FString "MinIO error: " (S3Error "NoSuchKey"))), w).
Proof.
  intros H Hs Hb. unfold app.download_file, try_except, bind.
  rewrite (select_by_id_found _ _ _ H).
  rewrite (get_object_missing _ _ _ Hs Hb). reflexivity.
Qed.

Lemma app_download_ok row b :
  lookup_row file_id w = Some row → store_fault e = None →
  bucket w !! Row.minio_object_key row = Some b →
  response_encodable row = true →
  ∃ w', app.download_file e file_id w =
          (Ok (StreamingResponse.mk (stream (32 * 1024) (Blob.data b))
                 (Some (or_else (Row.content_type row) octet_stream))
                 (attachment_headers (Row.file_name row))), w') ∧
        bucket w' = bucket w ∧ db_rows w' = db_rows w ∧
        log w' = log w ++ [EvGet (Row.minio_object_key row)].
Proof.
  intros H Hs Hb He. unfold app.download_file, try_except, bind.
  rewrite (select_by_id_found _ _ _ H).
  destruct (get_object_ok e w _ b Hs Hb) as (w' & -> & Hw).
  unfold lift, StreamingResponse.init.
  unfold response_encodable in He. rewrite He. eauto.
Qed.

(** The blob is read, and the response is refused for its headers. *)
Lemma app_download_unencodable row b :
  lookup_row file_id w = Some row → store_fault e = None →
  bucket w !! Row.minio_object_key row = Some b →
  response_encodable row = false →
  ∃ w', app.download_file e file_id w =
          (Raise (app_error "Download error: " UnicodeEncodeError), w') ∧
        bucket w' = bucket w ∧ db_rows w' = db_rows w ∧
        log w' = log w ++ [EvGet (Row.minio_object_key row)].
Proof.
  intros H Hs Hb He. unfold app.download_file, try_except, bind.
  rewrite (select_by_id_found _ _ _ H).
  destruct (get_object_ok e w _ b Hs Hb) as (w' & -> & Hw).
  unfold lift, StreamingResponse.init.
  unfold response_encodable in He. rewrite He. eauto.
Qed.

(** A 200 answer means that the row, the blob and the response were there. *)
Lemma app_download_inv r w' :
  app.download_file e file_id w = (Ok r, w') →
  ∃ row b,
    lookup_row file_id w = Some row ∧ store_fault e = None ∧
    bucket w !! Row.minio_object_key row = Some b ∧
    response_encodable row = true ∧
    r = StreamingResponse.mk (stream (32 * 1024) (Blob.data b))
          (Some (or_else (Row.content_type row) octet_stream))
          (attachment_headers (Row.file_name row)).
Proof.
  intros H.
  destruct (lookup_row file_id w) as [row|] eqn:Hrow.
  2:{ destruct (in_int64 file_id) eqn:Hr.
      - rewrite (app_download_missing Hrow Hr) in H. discriminate.
      - rewrite (app_download_overflow Hrow Hr) in H. discriminate. }
  destruct (store_fault e) as [x|] eqn:Hs.
  { rewrite (app_download_fault row x Hrow Hs) in H. discriminate. }
  destruct (bucket w !! Row.minio_object_key row) as [b|] eqn:Hb.
  2:{ rewrite (app_download_blob_missing row Hrow Hs Hb) in H. discriminate. }
  destruct (response_encodable row) eqn:He.
  - destruct (app_download_ok row b Hrow Hs Hb He) as (w'' & Hdl & _).
    exists row, b. do 4 (split; [first [reflexivity | assumption]|]).
    revert Hdl H. generalize (32 * 1024)%nat. intros amt Hdl H.
    rewrite Hdl in H. injection H as <- <-. reflexivity.
  - destruct (app_download_unencodable row b Hrow Hs Hb He) as (w'' & Hdl & _).
    rewrite Hdl in H. discriminate.
Qed.

Lemma get_file_metadata_missing :
  lookup_row file_id w = None → in_int64 file_id = true →
  database_service.get_file_metadata file_id w = (Ok None, w).
Proof.
  intros H Hr. unfold database_service.get_file_metadata, bind.
  rewrite (select_by_id_missing _ _ H Hr). reflexivity.
Qed.

Lemma get_file_metadata_overflow :
  lookup_row file_id w = None → in_int64 file_id = false →
  database_service.get_file_metadata file_id w = (Raise overflow, w).
Proof.
  intros H Hr. unfold database_service.get_file_metadata, bind.
  rewrite (select_by_id_overflow _ _ H Hr). reflexivity.
Qed.

Lemma get_file_metadata_existing row :
  lookup_row file_id w = Some row →
  database_service.get_file_metadata file_id w =
    (Raise (ValidationError "created_at"), w).
Proof.
  intros H. unfold database_service.get_file_metadata, bind.
  rewrite (select_by_id_found _ _ _ H). reflexivity.
Qed.

Lemma get_file_metadata_never_some file w' :
  database_service.get_file_metadata file_id w ≠ (Ok (Some file), w').
Proof.
  destruct (lookup_row file_id w) as [row|] eqn:H.
  - rewrite (get_file_metadata_existing row H). discriminate.
  - destruct (in_int64 file_id) eqn:Hr.
    + rewrite (get_file_metadata_missing H Hr). discriminate.
    + rewrite (get_file_metadata_overflow H Hr). discriminate.
Qed.

Lemma main_download_missing :
  lookup_row file_id w = None → in_int64 file_id = true →
  main.download_file e file_id w =
    (Raise (main_error (HTTPException 404 (Literal "File not found"))), w).
Proof.
  intros H Hr. unfold main.download_file, main.guarded, try_except, bind.
  rewrite (get_file_metadata_missing H Hr). reflexivity.
Qed.

Lemma main_download_overflow :
  lookup_row file_id w = None → in_int64 file_id = false →
  main.download_file e file_id w = (Raise (main_error overflow), w).
Proof.
  intros H Hr. unfold main.download_file, main.guarded, try_except, bind.
  rewrite (get_file_metadata_overflow H Hr). reflexivity.
Qed.

Lemma main_download_existing row :
  lookup_row file_id w = Some row →
  main.download_file e file_id w =
    (Raise (main_error (ValidationError "created_at")), w).
Proof.
  intros H. unfold main.download_file, main.guarded, try_except, bind.
  rewrite (get_file_metadata_existing row H). reflexivity.
Qed.

Lemma main_delete_missing :
  lookup_row file_id w = None → in_int64 file_id = true →
  main.delete_file e file_id w =
    (Raise (main_error (HTTPException 404 (Literal "File not found in database"))), w).
Proof.
  intros H Hr. unfold main.delete_file, main.guarded, try_except, bind.
  rewrite (get_file_metadata_missing H Hr). reflexivity.
Qed.

Lemma main_delete_overflow :
  lookup_row file_id w = None → in_int64 file_id = false →
  main.delete_file e file_id w = (Raise (main_error overflow), w).
Proof.
  intros H Hr. unfold main.delete_file, main.guarded, try_except, bind.
  rewrite (get_file_metadata_overflow H Hr). reflexivity.
Qed.

Lemma main_delete_existing row :
  lookup_row file_id w = Some row →
  main.delete_file e file_id w =
    (Raise (main_error (ValidationError "created_at")), w).
Proof.
  intros H. unfold main.delete_file, main.guarded, try_except, bind.
  rewrite (get_file_metadata_existing row H). reflexivity.
Qed.

Lemma app_delete_missing :
  lookup_row file_id w = None → in_int64 file_id = true →
  app.delete_file e file_id w =
    (Raise (HTTPException 404 (Literal "File not found")), w).
Proof.
  intros H Hr. unfold app.delete_file, try_except, bind.
  rewrite (select_by_id_missing _ _ H Hr). reflexivity.
Qed.

Lemma app_delete_overflow :
  lookup_row file_id w = None → in_int64 file_id = false →
  app.delete_file e file_id w =
    (Raise (app_error "Delete error: " overflow), w).
Proof.
  intros H Hr. unfold app.delete_file, try_except, bind.
  rewrite (select_by_id_overflow _ _ H Hr). reflexivity.
Qed.

Lemma app_delete_remove_raises row x :
  lookup_row file_id w = Some row → concurrent_delete e = false →
  remove_object e (Row.minio_object_key row) w = (Raise x, w) →
  app.delete_file e file_id w = (Raise (app_error "Delete error: " x), w).
Proof.
  intros H Hc Hr. unfold app.delete_file, try_except, bind.
  rewrite (select_by_id_found _ _ _ H). unfold interleave. rewrite Hc.
  unfold ret at 1. rewrite Hr. by destruct x.
Qed.

Lemma app_delete_db_fault row x :
  lookup_row file_id w = Some row → concurrent_delete e = false →
  remove_object e (Row.minio_object_key row) w =
    (Ok tt, drop_blob (Row.minio_object_key row) w) →
  db_fault e = Some x →
  app.delete_file e file_id w =
    (Raise (app_error "Delete error: " x), drop_blob (Row.minio_object_key row) w).
Proof.
  intros H Hc Hr Hd. unfold app.delete_file, try_except, bind.
  rewrite (select_by_id_found _ _ _ H). unfold interleave. rewrite Hc.
  unfold ret at 1. rewrite Hr.
  rewrite (delete_by_id_fault _ _ _ x Hd). by destruct x.
Qed.

Lemma app_delete_ok row :
  lookup_row file_id w = Some row → concurrent_delete e = false →
  remove_object e (Row.minio_object_key row) w =
    (Ok tt, drop_blob (Row.minio_object_key row) w) →
  db_fault e = None →
  app.delete_file e file_id w =
    (Ok (FileDeleted file_id),
     drop_row file_id (drop_blob (Row.minio_object_key row) w)).
Proof.
  intros H Hc Hr Hd. unfold app.delete_file, try_except, bind.
  rewrite (select_by_id_found _ _ _ H). unfold interleave. rewrite Hc.
  unfold ret at 1. rewrite Hr.
  destruct (delete_by_id_ok e (drop_blob (Row.minio_object_key row) w) file_id Hd)
    as [n ->].
  reflexivity.
Qed.
End Lookup.

(** ** Listing *)

#[local] Instance newer_first_total : Total newer_first.
Proof. intros a b. unfold newer_first. lia. Qed.

#[local] Instance newer_first_trans : Transitive newer_first.
Proof. intros a b c. unfold newer_first. lia. Qed.

Lemma collect_metadata (rows : list Row.t) :
  database_service.collect database_service.metadata_of_row rows =
    Ok (layered_of_row <$> rows).
Proof.
  induction rows as [|r rows IH]; [reflexivity|].
  simpl. rewrite IH. reflexivity.
Qed.

Lemma app_list_files_eq (w : world) :
  app.list_files w =
    (Ok (app.metadata_of_row <$> merge_sort newer_first (db_rows w)), w).
Proof. reflexivity. Qed.

Lemma main_list_files_eq (w : world) :
  main.list_files_endpoint w =
    (Ok (layered_of_row <$> merge_sort newer_first (db_rows w)), w).
Proof.
  unfold main.list_files_endpoint, main.guarded, try_except,
    database_service.list_files, bind, select_all_newest_first, lift.
  rewrite collect_metadata. reflexivity.
Qed.

Lemma as_layered_of_row (rows : list Row.t) :
  as_layered <$> (app.metadata_of_row <$> rows) = layered_of_row <$> rows.
Proof. rewrite <- list_fmap_compose. reflexivity. Qed.

Lemma listed_newest_first (w : world) :
  StronglySorted app_newer_first
    (app.metadata_of_row <$> merge_sort newer_first (db_rows w)).
Proof.
  apply StronglySorted_fmap with (R1 := newer_first).
  - intros a b Hab. exact Hab.
  - apply StronglySorted_merge_sort; apply _.
Qed.

(** C8: [List()] answers with every row of the table, newest first (by
    [created_at], descending), in both variants; the world it returns is the
    one it was given, so neither the bucket nor the call log is touched; on a
    table without rows the answer is the empty list, not an error. *)
Theorem C8_list_all_rows_newest_first (w : world) :
  ∃ L : list app.FileMetadata.t,
    app.list_files w = (Ok L, w) ∧
    main.list_files_endpoint w = (Ok (as_layered <$> L), w) ∧
    L ≡ₚ app.metadata_of_row <$> db_rows w ∧
    StronglySorted app_newer_first L ∧
    StronglySorted layered_newer_first (as_layered <$> L) ∧
    app.list_files empty_world = (Ok [], empty_world) ∧
    main.list_files_endpoint empty_world = (Ok [], empty_world).
Proof.
  exists (app.metadata_of_row <$> merge_sort newer_first (db_rows w)).
  split; [apply app_list_files_eq|].
  split; [rewrite main_list_files_eq, as_layered_of_row; reflexivity|].
  split; [by rewrite merge_sort_Permutation|].
  split; [apply listed_newest_first|].
  split; [|split; reflexivity].
  apply StronglySorted_fmap with (R1 := app_newer_first).
  - intros a b Hab. exact Hab.
  - apply listed_newest_first.
Qed.

(** ** Round trip *)

Lemma bucket_upload_committed key file r w :
  bucket (upload_committed key file r w) !! key = Some (blob_of file).
Proof. unfold upload_committed; simpl. apply lookup_insert_eq. Qed.

Lemma minio_download_ok e key w b :
  store_fault e = None → bucket w !! key = Some b →
  ∃ w', minio_service.download_file_from_minio e key w =
          (Ok (stream (2 ^ 16) (Blob.data b)), w') ∧
        bucket w' = bucket w ∧ db_rows w' = db_rows w.
Proof.
  intros Hs Hb. unfold minio_service.download_file_from_minio, bind.
  destruct (get_object_ok e w key b Hs Hb) as (w' & -> & Hbk & Hrows & _).
  eauto.
Qed.

Lemma app_row_encodable (e : env) (file : UploadFile.t) (w : world) :
  response_encodable (app_row e file w) = servable file.
Proof. by rewrite response_encodable_eq. Qed.

(** C1: when an upload of a file with content [B] is answered with an id,
    the row of that id records the generated object key and the bucket holds
    [B] under that key.  A download of the id (with the store reachable)
    streams chunks whose concatenation is [B], byte for byte, when the file
    name and the content type can be encoded as latin-1.  When they cannot,
    the download reads the blob and is then answered with status 500: the
    response cannot write its headers, and the bytes do not come back.  The
    layered service pair round-trips for every file: what
    [upload_file_to_minio] put under the key it returns is what
    [download_file_from_minio] streams back. *)
Theorem C1_roundtrip_unless_name_outside_latin1
    (e e' : env) (file : UploadFile.t) (w w' : world)
    (resp : app.FileUploadResponse.t) :
  app.upload_file e file w = (Ok resp, w') →
  store_fault e' = None →
  (∃ row blob,
      lookup_row (app.FileUploadResponse.id resp) w' = Some row ∧
      Row.minio_object_key row = app.FileUploadResponse.minio_object_key resp ∧
      bucket w' !! Row.minio_object_key row = Some blob ∧
      Blob.data blob = UploadFile.content file ∧
      (servable file = true →
       ∃ r w'',
         app.download_file e' (app.FileUploadResponse.id resp) w' = (Ok r, w'') ∧
         List.concat (StreamingResponse.body r) = UploadFile.content file) ∧
      (servable file = false →
       ∃ w'',
         app.download_file e' (app.FileUploadResponse.id resp) w' =
           (Raise (HTTPException 500
                     (FString "Download error: " UnicodeEncodeError)), w'') ∧
         bucket w'' = bucket w' ∧ db_rows w'' = db_rows w' ∧
         log w'' = log w' ++ [EvGet (Row.minio_object_key row)])) ∧
  (∃ name key size ct w1 chunks w2,
      minio_service.upload_file_to_minio e file w = (Ok (name, key, size, ct), w1) ∧
      minio_service.download_file_from_minio e' key w1 = (Ok chunks, w2) ∧
      List.concat chunks = UploadFile.content file).
Proof.
  intros Hup He'.
  apply app_upload_inv in Hup as (Hs & Hd & Hk & -> & ->).
  split.
  - set (key := app.object_key_of e file).
    set (w1 := put_blob key (blob_of file) w).
    assert (lookup_row (next_rowid w) (upload_committed key file (app_row e file w) w)
            = Some (app_row e file w)) as Hrow.
    { exact (lookup_row_add_row (app_row e file w) w1 eq_refl). }
    pose proof (bucket_upload_committed key file (app_row e file w) w) as Hb.
    exists (app_row e file w), (blob_of file).
    split; [exact Hrow|]. split; [reflexivity|]. split; [exact Hb|].
    split; [reflexivity|]. split.
    + intros Hok. rewrite <- (app_row_encodable e file w) in Hok.
      destruct (app_download_ok e' (next_rowid w) _ (app_row e file w)
                  (blob_of file) Hrow He' Hb Hok) as (w'' & Hdl & _).
      eexists. exists w''. split; [exact Hdl|].
      cbn [StreamingResponse.body]. apply stream_concat. lia.
    + intros Hno. rewrite <- (app_row_encodable e file w) in Hno.
      destruct (app_download_unencodable e' (next_rowid w) _ (app_row e file w)
                  (blob_of file) Hrow He' Hb Hno) as (w'' & Hdl & Hw).
      exists w''. split; [exact Hdl | exact Hw].
  - rewrite (minio_upload_ok e file w Hs).
    set (key := minio_service.object_key_of e file).
    destruct (minio_download_ok e' key (put_blob key (blob_of file) w) (blob_of file) He')
      as (w2 & Hdl & _).
    { simpl. apply lookup_insert_eq. }
    do 5 eexists. exists (stream (2 ^ 16) (UploadFile.content file)), w2.
    split; [reflexivity|]. split; [exact Hdl|].
    apply stream_concat. apply Nat.neq_0_lt_0, Nat.pow_nonzero. lia.
Qed.

(** The upload of [euro_txt] is answered with id 1, and the download of id 1
    with status 500. *)
Lemma C1_euro_name_is_not_served :
  app.upload_file env1 euro_txt empty_world =
    (Ok (app.FileUploadResponse.mk 1 euro_name
           (app.object_key_of env1 euro_txt) "File uploaded successfully"),
     one_euro_file) ∧
  ∃ w'', app.download_file env2 1 one_euro_file =
           (Raise (HTTPException 500
                     (FString "Download error: " UnicodeEncodeError)), w'').
Proof.
  split; [reflexivity|].
  destruct (C1_roundtrip_unless_name_outside_latin1 env1 env2 euro_txt
              empty_world one_euro_file
              (app.FileUploadResponse.mk 1 euro_name
                 (app.object_key_of env1 euro_txt) "File uploaded successfully")
              eq_refl eq_refl)
    as [(row & blob & _ & _ & _ & _ & _ & Hno) _].
  destruct (Hno eq_refl) as (w'' & Hdl & _).
  exists w''. exact Hdl.
Defined.

(** ** Ordering of the two writes of an upload *)

Lemma app_upload_effect (e : env) (file : UploadFile.t) (w : world) :
  ∃ calls, upload_effect e (app.object_key_of e file) file w
             (snd (app.upload_file e file w)) calls.
Proof.
  unfold upload_effect, insert_fails.
  destruct (store_fault e) as [x|] eqn:Hs.
  { rewrite (app_upload_store_fault e file w x Hs). exists []. simpl.
    by rewrite app_nil_r. }
  destruct (db_fault e) as [x|] eqn:Hd.
  { rewrite (app_upload_db_fault e file w x Hs Hd). eexists. simpl. eauto. }
  destruct (key_taken (app.object_key_of e file) (db_rows w)) eqn:Hk.
  { rewrite (app_upload_duplicate e file w Hs Hd Hk). eexists. simpl. eauto. }
  rewrite (app_upload_ok e file w Hs Hd Hk).
  exists [EvPut (app.object_key_of e file);
          EvInsert (next_rowid w) (app.object_key_of e file)].
  simpl. rewrite <- app_assoc. repeat split.
  exists (app_row e file w). auto.
Qed.

Lemma main_upload_effect (e : env) (file : UploadFile.t) (w : world) :
  ∃ calls, upload_effect e (minio_service.object_key_of e file) file w
             (snd (main.upload_file e file w)) calls.
Proof.
  unfold upload_effect, insert_fails.
  destruct (store_fault e) as [x|] eqn:Hs.
  { rewrite (main_upload_store_fault e file w x Hs). exists []. simpl.
    by rewrite app_nil_r. }
  destruct (db_fault e) as [x|] eqn:Hd.
  { rewrite (main_upload_db_fault e file w x Hs Hd). eexists. simpl. eauto. }
  destruct (key_taken (minio_service.object_key_of e file) (db_rows w)) eqn:Hk.
  { rewrite (main_upload_duplicate e file w Hs Hd Hk). eexists. simpl. eauto. }
  rewrite (main_upload_committed e file w Hs Hd Hk).
  exists [EvPut (minio_service.object_key_of e file);
          EvInsert (next_rowid w) (minio_service.object_key_of e file)].
  simpl. rewrite <- app_assoc. repeat split.
  exists (main_row e file w). auto.
Qed.

Lemma upload_effect_order e key file w w' calls :
  upload_effect e key file w w' calls →
  put_precedes_insert calls ∧ no_removal calls.
Proof.
  unfold upload_effect, put_precedes_insert, no_removal.
  intros [_ H]. destruct (store_fault e).
  { destruct H as (-> & _).
    split; [intros i k Hin | intros k Hin]; by apply elem_of_nil in Hin. }
  destruct H as [_ H]. destruct (insert_fails e key w).
  - destruct H as [-> _]. split.
    + intros i k Hin. apply list_elem_of_singleton in Hin. discriminate.
    + intros k Hin. apply list_elem_of_singleton in Hin. discriminate.
  - destruct H as (r & -> & _). split.
    + intros i k Hin. apply elem_of_cons in Hin as [Hin | Hin]; [discriminate|].
      apply list_elem_of_singleton in Hin. injection Hin as -> ->.
      exists [], [EvInsert (Row.id r) key]. split; [reflexivity|].
      by apply list_elem_of_singleton.
    + intros k Hin. apply elem_of_cons in Hin as [Hin | Hin]; [discriminate|].
      apply list_elem_of_singleton in Hin. discriminate.
Qed.

(** C2: in both variants an upload calls the object store first and the
    table second: in the calls it completes, every insert of a row follows
    the put of the blob under the same key, and there is no removal.  If
    [put_object] raises, nothing is logged and neither the bucket nor the
    table changes, so no row is inserted for a blob that was not written.
    If it returns, the blob is in the bucket under the generated key; when
    the INSERT then raises, the only completed call is that put, the blob
    stays (orphaned) and the table is unchanged; otherwise the calls are the
    put followed by the insert of one row carrying that key. *)
Theorem C2_upload_writes_blob_before_row
    (e : env) (file : UploadFile.t) (w : world) :
  (∃ calls, upload_effect e (app.object_key_of e file) file w
              (snd (app.upload_file e file w)) calls ∧
            put_precedes_insert calls ∧ no_removal calls) ∧
  (∃ calls, upload_effect e (minio_service.object_key_of e file) file w
              (snd (main.upload_file e file w)) calls ∧
            put_precedes_insert calls ∧ no_removal calls).
Proof.
  split.
  - destruct (app_upload_effect e file w) as [calls H].
    exists calls. split; [exact H|]. exact (upload_effect_order _ _ _ _ _ _ H).
  - destruct (main_upload_effect e file w) as [calls H].
    exists calls. split; [exact H|]. exact (upload_effect_order _ _ _ _ _ _ H).
Qed.

(** ** Delete: the blob-removal step *)

Lemma store_errors_only_fault e x :
  store_errors_only e = true → store_fault e = Some x → is_store_error x.
Proof.
  unfold store_errors_only. intros H Hf. rewrite Hf in H. by destruct x.
Qed.

Lemma app_error_store prefix x :
  is_store_error x → ∃ d, app_error prefix x = HTTPException 500 d.
Proof. destruct x; try done; intros _; eexists; reflexivity. Qed.

Lemma main_delete_from_remove_raises e file_id key w x :
  remove_object e key w = (Raise x, w) →
  main.guarded (main.delete_file_from e file_id key) w = (Raise (main_error x), w).
Proof.
  intros H. unfold main.guarded, main.delete_file_from, try_except, bind,
    minio_service.delete_file_from_minio.
  rewrite H. reflexivity.
Qed.

(** C3, as the code has it: with the row of [id] present, removal of the
    blob is attempted first.  Whatever error the object store raises there
    (a reported absent key like any transport failure) ends the request
    with status 500, the world as it was: the row is not touched.  Only when
    [remove_object] returns does the DELETE run; if it succeeds the request
    answers 200 and the row is gone.  The layered [delete_file_from_minio]
    passes every store error on in the same way. *)
Theorem C3_delete_aborts_on_every_store_error
    (e : env) (file_id : Z) (w : world) (row : Row.t) :
  lookup_row file_id w = Some row →
  concurrent_delete e = false →
  store_errors_only e = true →
  match remove_object e (Row.minio_object_key row) w with
  | (Raise x, _) =>
      (∃ d, app.delete_file e file_id w = (Raise (HTTPException 500 d), w)) ∧
      main.guarded (main.delete_file_from e file_id (Row.minio_object_key row)) w
        = (Raise (main_error x), w)
  | (Ok _, w1) =>
      w1 = drop_blob (Row.minio_object_key row) w ∧
      match db_fault e with
      | Some x =>
          app.delete_file e file_id w = (Raise (app_error "Delete error: " x), w1)
      | None =>
          app.delete_file e file_id w = (Ok (FileDeleted file_id), drop_row file_id w1) ∧
          lookup_row file_id (drop_row file_id w1) = None
      end
  end.
Proof.
  intros Hrow Hc Hse.
  destruct (remove_object_cases e (Row.minio_object_key row) w)
    as [(x & Heq & Hwhy) | (Heq & Hs & _)]; rewrite Heq.
  - assert (is_store_error x) as Hx.
    { destruct Hwhy as [Hf | (_ & _ & _ & ->)]; [|exact I].
      by apply (store_errors_only_fault e). }
    split; [|by apply main_delete_from_remove_raises].
    destruct (app_error_store "Delete error: " x Hx) as [d Hd].
    exists d. rewrite <- Hd. by apply (app_delete_remove_raises e file_id w row).
  - split; [reflexivity|].
    destruct (db_fault e) as [x|] eqn:Hd.
    + by apply (app_delete_db_fault e file_id w row).
    + split; [by apply (app_delete_ok e file_id w row)|].
      apply lookup_row_drop_row.
Qed.

Lemma C3_strict_store_on_dangling_record :
  ∃ d, app.delete_file strict_store 1 dangling = (Raise (HTTPException 500 d), dangling).
Proof.
  exact (proj1 (C3_delete_aborts_on_every_store_error strict_store 1 dangling
                  (app_row env1 hello_txt empty_world) eq_refl eq_refl eq_refl)).
Defined.

(** The record of id 1 has lost its blob and the store reports the key
    absent on removal: the delete answers 500 and the row is still there. *)
Lemma C3_absent_key_report_is_fatal :
  lookup_row 1 dangling = Some (app_row env1 hello_txt empty_world) ∧
  remove_object strict_store (app.object_key_of env1 hello_txt) dangling
    = (Raise (S3Error "NoSuchKey"), dangling) ∧
  status_of (fst (app.delete_file strict_store 1 dangling)) = 500 ∧
  lookup_row 1 (snd (app.delete_file strict_store 1 dangling))
    = Some (app_row env1 hello_txt empty_world).
Proof. repeat split. Qed.

(** ** Download failures *)

(** C4, at the layered handler: for an id without a row (an id that SQLite
    can bind, that is within signed 64 bits) the body raises the 404 that the
    monolithic handler answers with, but the handler's only [except] clause
    catches it and answers 500.  For an id outside that range the SELECT
    itself raises [OverflowError], and both handlers answer 500. *)
Theorem C4_layered_download_turns_404_into_500
    (e : env) (file_id : Z) (w : world) :
  lookup_row file_id w = None →
  (in_int64 file_id = true →
   main.download_file e file_id w =
     (Raise (HTTPException 500
               (FString "" (HTTPException 404 (Literal "File not found")))), w) ∧
   app.download_file e file_id w =
     (Raise (HTTPException 404 (Literal "File not found")), w)) ∧
  (in_int64 file_id = false →
   main.download_file e file_id w =
     (Raise (HTTPException 500 (FString "" overflow)), w) ∧
   app.download_file e file_id w =
     (Raise (HTTPException 500 (FString "Download error: " overflow)), w)).
Proof.
  intros H. split; intros Hr.
  - split; [by apply main_download_missing | by apply app_download_missing].
  - split; [by apply main_download_overflow | by apply app_download_overflow].
Qed.

Lemma C4_download_from_empty_table :
  status_of (fst (main.download_file env1 1 empty_world)) = 500 ∧
  status_of (fst (app.download_file env1 1 empty_world)) = 404.
Proof.
  destruct (proj1 (C4_layered_download_turns_404_into_500 env1 1 empty_world
                     eq_refl) eq_refl)
    as [-> ->].
  split; reflexivity.
Defined.

(** The monolithic handler keeps the two failures apart. *)
Lemma app_download_failures_differ (e : env) (file_id : Z) (w : world) :
  store_fault e = None → in_int64 file_id = true →
  match lookup_row file_id w with
  | None => status_of (fst (app.download_file e file_id w)) = 404
  | Some row =>
      bucket w !! Row.minio_object_key row = None →
      status_of (fst (app.download_file e file_id w)) = 500
  end.
Proof.
  intros Hs Hr. destruct (lookup_row file_id w) as [row|] eqn:H.
  - intros Hb. by rewrite (app_download_blob_missing e file_id w row H Hs Hb).
  - by rewrite (app_download_missing e file_id w H Hr).
Qed.

(** ** The layered read of one record *)

(** C5: in the layered variant [get_file_metadata] builds a [FileMetadata]
    without [created_at] (and without [size]); the model requires
    [created_at], so for every id that has a row the call raises a
    validation error, and [download_file] and [delete_file] of [main.py]
    answer 500 for every existing record, leaving both stores as they were.
    Subscripting the model, as [delete_file] goes on to do, is a [TypeError]. *)
Theorem C5_layered_lookup_of_existing_record_raises
    (e : env) (file_id : Z) (w : world) (row : Row.t) :
  lookup_row file_id w = Some row →
  file_model.FileMetadata.init file_id (Row.file_name row)
    (Row.minio_object_key row) (Row.content_type row) None None
    = Raise (ValidationError "created_at") ∧
  database_service.get_file_metadata file_id w
    = (Raise (ValidationError "created_at"), w) ∧
  main.download_file e file_id w
    = (Raise (HTTPException 500 (FString "" (ValidationError "created_at"))), w) ∧
  main.delete_file e file_id w
    = (Raise (HTTPException 500 (FString "" (ValidationError "created_at"))), w) ∧
  (∀ file key, ∃ msg,
      file_model.FileMetadata.getitem file key = Raise (TypeError msg)).
Proof.
  intros H. split; [reflexivity|].
  split; [by apply (get_file_metadata_existing file_id w row)|].
  split; [by apply (main_download_existing e file_id w row)|].
  split; [by apply (main_delete_existing e file_id w row)|].
  intros file key. eexists. reflexivity.
Qed.

Lemma C5_record_written_by_layered_upload :
  status_of (fst (main.download_file env2 1 one_file_layered)) = 500 ∧
  status_of (fst (main.delete_file env2 1 one_file_layered)) = 500.
Proof.
  destruct (C5_layered_lookup_of_existing_record_raises env2 1 one_file_layered
              (main_row env1 hello_txt empty_world) eq_refl)
    as (_ & _ & -> & -> & _).
  split; reflexivity.
Defined.

(** ** Delete: outcomes *)

Lemma filter_twice {A} (p : A → bool) (l : list A) :
  List.filter p (List.filter p l) = List.filter p l.
Proof.
  induction l as [|a l IH]; [reflexivity|]. simpl.
  destruct (p a) eqn:Hp; simpl; [rewrite Hp, IH; reflexivity | exact IH].
Qed.

Lemma find_none_filter {A} (p : A → bool) (l : list A) :
  List.find p l = None → List.filter (λ a, negb (p a)) l = l.
Proof.
  induction l as [|a l IH]; [reflexivity|]. simpl.
  destruct (p a); [discriminate|]. intros H. simpl. by rewrite IH.
Qed.

Lemma filter_length_le {A} (p : A → bool) (l : list A) :
  (List.length (List.filter p l) ≤ List.length l)%nat.
Proof.
  induction l as [|a l IH]; [reflexivity|]. simpl.
  destruct (p a); simpl; lia.
Qed.

Lemma find_some_filter_shorter {A} (p : A → bool) (l : list A) (a : A) :
  List.find p l = Some a →
  (List.length (List.filter (λ a, negb (p a)) l) < List.length l)%nat.
Proof.
  induction l as [|b l IH]; [discriminate|]. simpl.
  destruct (p b); simpl.
  - intros _. pose proof (filter_length_le (λ a, negb (p a)) l). lia.
  - intros H. specialize (IH H). lia.
Qed.

Lemma rowcount_missing file_id w :
  lookup_row file_id w = None → rowcount file_id w = 0.
Proof.
  unfold lookup_row, rowcount. intros H.
  rewrite (find_none_filter _ _ H). lia.
Qed.

Lemma rowcount_present file_id w row :
  lookup_row file_id w = Some row → 0 < rowcount file_id w.
Proof.
  unfold lookup_row, rowcount. intros H.
  apply find_some_filter_shorter in H. lia.
Qed.

Lemma delete_by_id_eq e file_id w :
  db_fault e = None →
  delete_by_id e file_id w = (Ok (rowcount file_id w), drop_row file_id w).
Proof. intros H. unfold delete_by_id. rewrite H. reflexivity. Qed.


Lemma interleave_eq e file_id w row :
  lookup_row file_id w = Some row →
  interleave e file_id w =
    (Ok tt, if concurrent_delete e
            then lose_race file_id (Row.minio_object_key row) w else w).
Proof.
  intros H. unfold interleave. destruct (concurrent_delete e); [|reflexivity].
  unfold lookup_row, has_id in H. rewrite H. reflexivity.
Qed.





(** ** What an upload adds to the listing *)

Lemma append_prefix_inj (s1 s2 t1 t2 : string) :
  String.length s1 = String.length s2 → s1 +:+ t1 = s2 +:+ t2 → s1 = s2.
Proof.
  revert s2. induction s1 as [|c s1 IH]; intros [|c' s2]; simpl; try discriminate.
  - reflexivity.
  - intros [= Hlen] [= -> Heq]. f_equal. by apply IH.
Qed.

Lemma object_keys_differ (e1 e2 : env) (f1 f2 : UploadFile.t) :
  String.length (uuid4 e1) = String.length (uuid4 e2) →
  uuid4 e1 ≠ uuid4 e2 →
  app.object_key_of e1 f1 ≠ app.object_key_of e2 f2 ∧
  minio_service.object_key_of e1 f1 ≠ minio_service.object_key_of e2 f2.
Proof.
  intros Hlen Hne. split; intros Heq; apply Hne;
    exact (append_prefix_inj _ _ _ _ Hlen Heq).
Qed.

Lemma listed_after_insert (r : Row.t) (rows : list Row.t) :
  app.metadata_of_row <$> merge_sort newer_first (rows ++ [r])
    ≡ₚ app.metadata_of_row r :: (app.metadata_of_row <$> merge_sort newer_first rows).
Proof.
  rewrite !merge_sort_Permutation.
  rewrite fmap_app. simpl. by rewrite <- Permutation_cons_append.
Qed.

Lemma listed_row (w : world) (m : app.FileMetadata.t) :
  m ∈ app.metadata_of_row <$> merge_sort newer_first (db_rows w) →
  ∃ r, r ∈ db_rows w ∧ m = app.metadata_of_row r.
Proof.
  intros H. apply list_elem_of_fmap in H as (r & -> & Hr).
  exists r. split; [|reflexivity]. by rewrite merge_sort_Permutation in Hr.
Qed.

(** C7: after an upload that was answered with an id, the listing has
    exactly one record more than before: the listing before plus one new
    record, whose name is the client's, whose size is the byte length of the
    content, and whose id and object key are those of the answer and occur in
    no record listed before.  A further upload, whatever its name and
    content, gets another id and another key.  Object keys built from
    different UUIDs of equal length differ, in either variant.  The layered
    upload writes the same kind of record (its own key), although it is
    answered with 500. *)
Theorem C7_upload_adds_one_fresh_record
    (e : env) (file : UploadFile.t) (w w' : world)
    (resp : app.FileUploadResponse.t) :
  app.upload_file e file w = (Ok resp, w') →
  ∃ (L L' : list app.FileMetadata.t) (new : app.FileMetadata.t),
    app.list_files w = (Ok L, w) ∧
    app.list_files w' = (Ok L', w') ∧
    List.length L' = S (List.length L) ∧
    L' ≡ₚ new :: L ∧
    app.FileMetadata.id new = app.FileUploadResponse.id resp ∧
    app.FileMetadata.minio_object_key new
      = app.FileUploadResponse.minio_object_key resp ∧
    app.FileMetadata.filename new = UploadFile.filename file ∧
    app.FileMetadata.size new = Some (len (UploadFile.content file)) ∧
    (∀ old, old ∈ L →
       app.FileMetadata.minio_object_key old ≠ app.FileMetadata.minio_object_key new ∧
       app.FileMetadata.id old ≠ app.FileMetadata.id new) ∧
    (∀ e2 file2 resp2 w2,
       app.upload_file e2 file2 w' = (Ok resp2, w2) →
       app.FileUploadResponse.id resp2 ≠ app.FileUploadResponse.id resp ∧
       app.FileUploadResponse.minio_object_key resp2
         ≠ app.FileUploadResponse.minio_object_key resp) ∧
    (∀ e0 file0,
       String.length (uuid4 e0) = String.length (uuid4 e) →
       uuid4 e0 ≠ uuid4 e →
       app.object_key_of e0 file0 ≠ app.object_key_of e file ∧
       minio_service.object_key_of e0 file0 ≠ minio_service.object_key_of e file) ∧
    (key_taken (minio_service.object_key_of e file) (db_rows w) = false →
     ∃ wm Lm,
       main.upload_file e file w
         = (Raise (HTTPException 500 (FString "" (ValidationError "created_at"))), wm) ∧
       main.list_files_endpoint wm = (Ok Lm, wm) ∧
       Lm ≡ₚ layered_of_row (main_row e file w) :: (as_layered <$> L)).
Proof.
  intros Hup.
  apply app_upload_inv in Hup as (Hs & Hd & Hk & -> & ->).
  set (key := app.object_key_of e file) in *.
  set (row := app_row e file w).
  exists (app.metadata_of_row <$> merge_sort newer_first (db_rows w)),
         (app.metadata_of_row <$> merge_sort newer_first (db_rows w ++ [row])),
         (app.metadata_of_row row).
  pose proof (listed_after_insert row (db_rows w)) as Hperm.
  split; [apply app_list_files_eq|].
  split; [apply app_list_files_eq|].
  split. { by rewrite Hperm. }
  split; [exact Hperm|].
  do 4 (split; [reflexivity|]).
  split.
  { intros old Hold. apply listed_row in Hold as (r & Hr & ->). simpl. split.
    - by apply (key_taken_false key (db_rows w)).
    - apply next_rowid_fresh in Hr. lia. }
  split.
  { intros e2 file2 resp2 w2 Hup2.
    apply app_upload_inv in Hup2 as (_ & _ & Hk2 & -> & _). simpl.
    assert (row ∈ db_rows (upload_committed key file row w)) as Hin.
    { simpl. apply elem_of_app. right. by apply list_elem_of_singleton. }
    split.
    - apply next_rowid_fresh in Hin. simpl in Hin. lia.
    - intros Heq. by apply (key_taken_false _ _ row Hk2 Hin). }
  split; [intros e0 file0; apply object_keys_differ|].
  intros Hkm.
  set (mkey := minio_service.object_key_of e file) in *.
  exists (upload_committed mkey file (main_row e file w) w).
  eexists.
  split; [by apply main_upload_committed|].
  split; [apply main_list_files_eq|].
  rewrite as_layered_of_row, !merge_sort_Permutation.
  simpl. rewrite fmap_app. simpl. by rewrite <- Permutation_cons_append.
Qed.

Lemma C7_first_upload_listed :
  ∃ L', app.list_files one_file = (Ok L', one_file) ∧ List.length L' = 1%nat.
Proof.
  destruct (C7_upload_adds_one_fresh_record env1 hello_txt empty_world one_file
              (app.FileUploadResponse.mk 1 "hello.txt"
                 (app.object_key_of env1 hello_txt) "File uploaded successfully")
              eq_refl)
    as (L & L' & new & HL & HL' & Hlen & _).
  exists L'. split; [exact HL'|].
  rewrite Hlen. injection HL as <-. reflexivity.
Defined.

(** ** Content type *)

Lemma response_encodable_default (row : Row.t) :
  Row.content_type row = None →
  response_encodable row = latin1 (Row.file_name row).
Proof.
  intros Hct. rewrite response_encodable_eq, Hct.
  change (latin1 (or_else None octet_stream)) with true.
  by rewrite andb_true_r.
Qed.

(** C9: an upload without a content type writes its blob with the
    effective type [application/octet-stream], in both variants; for a
    record whose stored [content_type] is absent, every response that the
    download (monolithic handler, the one that streams) answers with has the
    media type [application/octet-stream], and it answers with one when the
    store is reachable, the blob is there and the file name can be encoded
    as latin-1 for the response header.  The layered upload stores the
    effective type in the row as well, so the records it writes never lack
    one. *)
Theorem C9_content_type_defaults_to_octet_stream :
  (∀ (e : env) (file : UploadFile.t) (w : world),
     UploadFile.content_type file = None →
     store_fault e = None →
     bucket (snd (app.upload_file e file w)) !! app.object_key_of e file
       = Some (Blob.mk (UploadFile.content file) (len (UploadFile.content file))
                 "application/octet-stream") ∧
     bucket (snd (main.upload_file e file w)) !! minio_service.object_key_of e file
       = Some (Blob.mk (UploadFile.content file) (len (UploadFile.content file))
                 "application/octet-stream")) ∧
  (∀ (e : env) (file_id : Z) (w : world) (row : Row.t),
     lookup_row file_id w = Some row →
     Row.content_type row = None →
     (∀ r w',
        app.download_file e file_id w = (Ok r, w') →
        StreamingResponse.media_type r = Some "application/octet-stream"%string) ∧
     (∀ b : Blob.t,
        store_fault e = None →
        bucket w !! Row.minio_object_key row = Some b →
        latin1 (Row.file_name row) = true →
        ∃ r w',
          app.download_file e file_id w = (Ok r, w') ∧
          StreamingResponse.media_type r = Some "application/octet-stream"%string)) ∧
  (∀ (e : env) (file : UploadFile.t) (w : world),
     UploadFile.content_type file = None →
     store_fault e = None → db_fault e = None →
     key_taken (minio_service.object_key_of e file) (db_rows w) = false →
     ∃ r, db_rows (snd (main.upload_file e file w)) = db_rows w ++ [r] ∧
          Row.content_type r = Some "application/octet-stream"%string).
Proof.
  split; [|split].
  - intros e file w Hct Hs.
    destruct (app_upload_effect e file w) as (ca & _ & Ha).
    destruct (main_upload_effect e file w) as (cm & _ & Hm).
    rewrite Hs in Ha, Hm. destruct Ha as [-> _], Hm as [-> _].
    rewrite !lookup_insert_eq. unfold blob_of. rewrite Hct. split; reflexivity.
  - intros e file_id w row Hrow Hct. split.
    + intros r w' Hdl.
      apply app_download_inv in Hdl as (row' & b & Hrow' & _ & _ & _ & ->).
      rewrite Hrow in Hrow'. injection Hrow' as <-.
      simpl. rewrite Hct. reflexivity.
    + intros b Hs Hb Hname.
      rewrite <- (response_encodable_default row Hct) in Hname.
      destruct (app_download_ok e file_id w row b Hrow Hs Hb Hname)
        as (w' & Hdl & _).
      eexists. exists w'. split; [exact Hdl|]. simpl. rewrite Hct. reflexivity.
  - intros e file w Hct Hs Hd Hk.
    rewrite (main_upload_committed e file w Hs Hd Hk).
    exists (main_row e file w). split; [reflexivity|].
    simpl. rewrite Hct. reflexivity.
Qed.

Lemma C9_hello_without_content_type :
  (∃ r w', app.download_file env2 1 one_file = (Ok r, w') ∧
           StreamingResponse.media_type r = Some "application/octet-stream"%string) ∧
  bucket one_file !! app.object_key_of env1 hello_txt
    = Some (Blob.mk hi 2 "application/octet-stream").
Proof.
  destruct C9_content_type_defaults_to_octet_stream as (Hup & Hdl & _).
  split.
  - exact (proj2 (Hdl env2 1 one_file (app_row env1 hello_txt empty_world)
                    eq_refl eq_refl)
             (blob_of hello_txt) eq_refl eq_refl eq_refl).
  - exact (proj1 (Hup env1 hello_txt empty_world eq_refl eq_refl)).
Defined.

(** ** The two variants side by side *)

(** C10, as the code has it.  When both stores accept an upload, the two
    variants write the same blob (content, length, effective content type)
    and append one row with the same id, file name, size and timestamp; the
    monolithic key is [<uuid>_<filename>] and its row keeps the content type
    as supplied, the layered key is [<uuid>_file.<extension>] and its row
    keeps the effective content type.  On every table the two listings are
    the same records in the same order. *)
Theorem C10_variants_agree_up_to_key_and_content_type
    (e : env) (file : UploadFile.t) (w : world) :
  store_fault e = None →
  db_fault e = None →
  key_taken (app.object_key_of e file) (db_rows w) = false →
  key_taken (minio_service.object_key_of e file) (db_rows w) = false →
  ∃ ra rm,
    bucket (snd (app.upload_file e file w))
      = <[uuid4 e +:+ "_" +:+ UploadFile.filename file := blob_of file]> (bucket w) ∧
    bucket (snd (main.upload_file e file w))
      = <[uuid4 e +:+ "_file." +:+ split_dot_last (UploadFile.filename file)
          := blob_of file]> (bucket w) ∧
    db_rows (snd (app.upload_file e file w)) = db_rows w ++ [ra] ∧
    db_rows (snd (main.upload_file e file w)) = db_rows w ++ [rm] ∧
    Row.id ra = Row.id rm ∧
    Row.file_name ra = Row.file_name rm ∧
    Row.size ra = Row.size rm ∧
    Row.created_at ra = Row.created_at rm ∧
    Row.minio_object_key ra = uuid4 e +:+ "_" +:+ UploadFile.filename file ∧
    Row.minio_object_key rm
      = uuid4 e +:+ "_file." +:+ split_dot_last (UploadFile.filename file) ∧
    Row.content_type ra = UploadFile.content_type file ∧
    Row.content_type rm
      = Some (or_else (UploadFile.content_type file) "application/octet-stream") ∧
    (∀ w0, ∃ L, app.list_files w0 = (Ok L, w0) ∧
                main.list_files_endpoint w0 = (Ok (as_layered <$> L), w0)).
Proof.
  intros Hs Hd Hka Hkm.
  exists (app_row e file w), (main_row e file w).
  rewrite (app_upload_ok e file w Hs Hd Hka).
  rewrite (main_upload_committed e file w Hs Hd Hkm).
  do 12 (split; [reflexivity|]).
  intros w0. eexists. split; [apply app_list_files_eq|].
  rewrite main_list_files_eq, as_layered_of_row. reflexivity.
Qed.

Lemma C10_hello_in_both_variants :
  ∃ ra rm, db_rows one_file = [ra] ∧ db_rows one_file_layered = [rm] ∧
           Row.id ra = Row.id rm ∧ Row.size ra = Row.size rm.
Proof.
  destruct (C10_variants_agree_up_to_key_and_content_type env1 hello_txt empty_world
              eq_refl eq_refl eq_refl eq_refl)
    as (ra & rm & _ & _ & Ha & Hm & Hid & _ & Hsz & _).
  exists ra, rm. repeat split; assumption.
Defined.

(** One upload of [hello.txt] without a content type, then a listing and a
    download of an unknown id: the answers and the tables differ in more
    than the generated identifiers. *)
Lemma C10_variants_are_not_equivalent :
  status_of (fst (app.upload_file env1 hello_txt empty_world)) = 200 ∧
  status_of (fst (main.upload_file env1 hello_txt empty_world)) = 500 ∧
  answer (app.list_files one_file)
    = Some [app.FileMetadata.mk 1 "hello.txt" (app.object_key_of env1 hello_txt)
              None (Some 2) 100] ∧
  answer (main.list_files_endpoint one_file_layered)
    = Some [file_model.FileMetadata.mk 1 "hello.txt"
              (minio_service.object_key_of env1 hello_txt)
              (Some "application/octet-stream"%string) (Some 2) 100] ∧
  status_of (fst (app.download_file env2 7 one_file)) = 404 ∧
  status_of (fst (main.download_file env2 7 one_file_layered)) = 500.
Proof. repeat split. Qed.

(** * More of the two applications *)

(** ** What one request does to the stores *)

Lemma stores_eq (w w' : world) :
  stores w' = stores w →
  bucket w' = bucket w ∧ db_rows w' = db_rows w ∧ db_seq w' = db_seq w.
Proof. unfold stores. intros [= Hb Hr Hs]. auto. Qed.

Lemma app_download_stores (e : env) (file_id : Z) (w : world) :
  stores (snd (app.download_file e file_id w)) = stores w.
Proof.
  unfold app.download_file, try_except, bind, select_by_id.
  destruct (List.find _ (db_rows w)) as [row|].
  2:{ by destruct (in_int64 file_id). }
  unfold get_object. destruct (store_fault e) as [x|].
  { by destruct x. }
  destruct (bucket w !! Row.minio_object_key row); [|reflexivity].
  unfold lift, StreamingResponse.init.
  by destruct (StreamingResponse.encodable _ _).
Qed.

Lemma main_download_stores (e : env) (file_id : Z) (w : world) :
  snd (main.download_file e file_id w) = w.
Proof.
  destruct (lookup_row file_id w) as [row|] eqn:H.
  - by rewrite (main_download_existing e file_id w row H).
  - destruct (in_int64 file_id) eqn:Hr.
    + by rewrite (main_download_missing e file_id w H Hr).
    + by rewrite (main_download_overflow e file_id w H Hr).
Qed.

Lemma main_delete_stores (e : env) (file_id : Z) (w : world) :
  snd (main.delete_file e file_id w) = w.
Proof.
  destruct (lookup_row file_id w) as [row|] eqn:H.
  - by rewrite (main_delete_existing e file_id w row H).
  - destruct (in_int64 file_id) eqn:Hr.
    + by rewrite (main_delete_missing e file_id w H Hr).
    + by rewrite (main_delete_overflow e file_id w H Hr).
Qed.

(** The world a monolithic delete of an existing record leaves, whatever
    the environment does. *)
Lemma app_delete_world (e : env) (file_id : Z) (w : world) (row : Row.t) :
  lookup_row file_id w = Some row →
  snd (app.delete_file e file_id w) =
    match remove_object e (Row.minio_object_key row)
            (if concurrent_delete e
             then lose_race file_id (Row.minio_object_key row) w else w) with
    | (Raise _, w1) => w1
    | (Ok _, w1) =>
        match db_fault e with
        | Some _ => w1
        | None => drop_row file_id w1
        end
    end.
Proof.
  intros H. unfold app.delete_file, try_except.
  unfold bind at 1. rewrite (select_by_id_found _ _ _ H).
  unfold bind at 1. rewrite (interleave_eq e file_id w row H).
  unfold bind at 1.
  destruct (remove_object e (Row.minio_object_key row) _) as [[[]|x] w1].
  - unfold bind. destruct (db_fault e) as [x|] eqn:Hd.
    + rewrite (delete_by_id_fault e w1 file_id x Hd). by destruct x.
    + by rewrite (delete_by_id_eq e file_id w1 Hd).
  - by destruct x.
Qed.

Lemma serve_moved (v : variant) (r : request) (w : world) :
  moved (delete_commits r) w (snd (serve v r w)).
Proof.
  destruct v, r as [e file| |e file_id|e file_id]; simpl.
  - (* app.upload_file *)
    destruct (store_fault e) as [x|] eqn:Hs.
    { rewrite (app_upload_store_fault e file w x Hs). by apply moved_nothing. }
    destruct (db_fault e) as [x|] eqn:Hd.
    { rewrite (app_upload_db_fault e file w x Hs Hd).
      by eapply moved_blob. }
    destruct (key_taken (app.object_key_of e file) (db_rows w)) eqn:Hk.
    { rewrite (app_upload_duplicate e file w Hs Hd Hk). by eapply moved_blob. }
    rewrite (app_upload_ok e file w Hs Hd Hk).
    by eapply (moved_upload _ _ _ _ _ (app_row e file w)).
  - by apply moved_nothing.
  - apply moved_nothing, app_download_stores.
  - (* app.delete_file *)
    destruct (lookup_row file_id w) as [row|] eqn:H.
    2:{ destruct (in_int64 file_id) eqn:Hr.
        - rewrite (app_delete_missing e file_id w H Hr). by apply moved_nothing.
        - rewrite (app_delete_overflow e file_id w H Hr). by apply moved_nothing. }
    rewrite (app_delete_world e file_id w row H).
    set (k := Row.minio_object_key row).
    destruct (concurrent_delete e).
    + destruct (remove_object_cases e k (lose_race file_id k w))
        as [(x & -> & _) | (-> & _)].
      { by apply (moved_delete _ _ _ file_id row). }
      apply (moved_delete _ _ _ file_id row H).
      destruct (db_fault e); unfold stores; simpl;
        by rewrite delete_delete_eq, ?filter_twice.
    + destruct (remove_object_cases e k w) as [(x & -> & _) | (-> & _)].
      { by apply moved_nothing. }
      destruct (db_fault e) eqn:Hd.
      * by apply (moved_half_delete _ _ _ file_id row).
      * by apply (moved_delete _ _ _ file_id row).
  - (* main.upload_file *)
    destruct (store_fault e) as [x|] eqn:Hs.
    { rewrite (main_upload_store_fault e file w x Hs). by apply moved_nothing. }
    destruct (db_fault e) as [x|] eqn:Hd.
    { rewrite (main_upload_db_fault e file w x Hs Hd). by eapply moved_blob. }
    destruct (key_taken (minio_service.object_key_of e file) (db_rows w)) eqn:Hk.
    { rewrite (main_upload_duplicate e file w Hs Hd Hk). by eapply moved_blob. }
    rewrite (main_upload_committed e file w Hs Hd Hk).
    by eapply (moved_upload _ _ _ _ _ (main_row e file w)).
  - apply moved_nothing. by rewrite main_list_files_eq.
  - apply moved_nothing. by rewrite main_download_stores.
  - apply moved_nothing. by rewrite main_delete_stores.
Qed.

(** ** Invariants of the table and the bucket *)

Lemma filter_elem {A} (p : A → bool) (l : list A) (a : A) :
  a ∈ List.filter p l ↔ a ∈ l ∧ p a = true.
Proof. rewrite !list_elem_of_In. apply filter_In. Qed.

Lemma NoDup_fmap_filter {A B} (f : A → B) (p : A → bool) (l : list A) :
  NoDup (f <$> l) → NoDup (f <$> List.filter p l).
Proof.
  induction l as [|a l IH]; simpl; [done|].
  rewrite NoDup_cons. intros [Hnotin Hnd].
  destruct (p a); simpl; [|by apply IH].
  apply NoDup_cons. split; [|by apply IH].
  intros Hin. apply Hnotin.
  apply list_elem_of_fmap in Hin as (a' & -> & Ha').
  apply filter_elem in Ha' as [Ha' _].
  by apply list_elem_of_fmap_2.
Qed.

Lemma Forall_list_filter {A} (P : A → Prop) (p : A → bool) (l : list A) :
  Forall P l → Forall P (List.filter p l).
Proof.
  induction 1 as [|a l Ha Hl IH]; simpl; [constructor|].
  destruct (p a); [by constructor | done].
Qed.

Lemma NoDup_fmap_same {A B} (f : A → B) (l : list A) (x y : A) :
  NoDup (f <$> l) → x ∈ l → y ∈ l → f x = f y → x = y.
Proof.
  induction l as [|a l IH]; simpl; [by rewrite elem_of_nil|].
  rewrite NoDup_cons, !elem_of_cons. intros [Hnotin Hnd] [->|Hx] [->|Hy] Heq.
  - reflexivity.
  - exfalso. apply Hnotin. rewrite Heq. by apply list_elem_of_fmap_2.
  - exfalso. apply Hnotin. rewrite <- Heq. by apply list_elem_of_fmap_2.
  - by apply IH.
Qed.

Lemma max_rowid_nonneg (rows : list Row.t) : 0 ≤ max_rowid rows.
Proof. induction rows as [|r rows IH]; simpl; lia. Qed.

Lemma or_else_nonempty (x : option string) (d : string) :
  d ≠ EmptyString → or_else x d ≠ EmptyString.
Proof. intros Hd. destruct x as [[|c s]|]; simpl; done. Qed.

Lemma table_ok_moved (c : bool) (w w' : world) :
  moved c w w' → table_ok w → table_ok w'.
Proof.
  unfold table_ok.
  intros [H | k f H | k f r Hk Hid Hkey H | i row Hrow H | i row _ Hrow H]
         (Hids & Hkeys & Hall);
    apply stores_eq in H as (_ & -> & ->); simpl; auto.
  - (* a row was appended *)
    rewrite !fmap_app. simpl. repeat split.
    + apply NoDup_app. split; [exact Hids|]. split; [|apply NoDup_singleton].
      intros x Hx Hx'. apply list_elem_of_singleton in Hx' as ->.
      apply list_elem_of_fmap in Hx as (r' & Heq & Hr').
      rewrite Forall_forall in Hall. specialize (Hall r' Hr').
      unfold next_rowid in Hid. lia.
    + apply NoDup_app. split; [exact Hkeys|]. split; [|apply NoDup_singleton].
      intros x Hx Hx'. apply list_elem_of_singleton in Hx' as ->.
      apply list_elem_of_fmap in Hx as (r' & Heq & Hr').
      apply (key_taken_false k (db_rows w) r' Hk Hr'). congruence.
    + apply Forall_app. split.
      * eapply Forall_impl; [exact Hall|]. simpl. intros r' Hr'.
        unfold next_rowid in Hid. lia.
      * constructor; [|constructor].
        pose proof (max_rowid_nonneg (db_rows w)).
        unfold next_rowid in Hid. lia.
  - (* rows were removed *)
    repeat split.
    + by apply NoDup_fmap_filter.
    + by apply NoDup_fmap_filter.
    + by apply Forall_list_filter.
Qed.

Lemma db_seq_moved (c : bool) (w w' : world) :
  moved c w w' → db_seq w ≤ db_seq w'.
Proof.
  intros [H | k f H | k f r Hk Hid Hkey H | i row Hrow H | i row _ Hrow H];
    apply stores_eq in H as (_ & _ & ->); simpl; try lia.
  rewrite Hid. unfold next_rowid. lia.
Qed.

Lemma bucket_ok_moved (c : bool) (w w' : world) :
  moved c w w' → bucket_ok w → bucket_ok w'.
Proof.
  unfold bucket_ok.
  assert (∀ file, Blob.length (blob_of file) = len (Blob.data (blob_of file)) ∧
                  Blob.content_type (blob_of file) ≠ EmptyString) as Hblob.
  { intros file. split; [reflexivity|]. simpl. by apply or_else_nonempty. }
  intros [H | k f H | k f r Hk Hid Hkey H | i row Hrow H | i row _ Hrow H] Hok k' b;
    apply stores_eq in H as (-> & _ & _); simpl.
  - apply Hok.
  - rewrite lookup_insert_Some. intros [[_ <-] | [_ Hb]]; eauto.
  - rewrite lookup_insert_Some. intros [[_ <-] | [_ Hb]]; eauto.
  - rewrite lookup_delete_Some. intros [_ Hb]. eauto.
  - rewrite lookup_delete_Some. intros [_ Hb]. eauto.
Qed.

Lemma blobs_present_moved (w w' : world) :
  moved true w w' → table_ok w → blobs_present w → blobs_present w'.
Proof.
  unfold blobs_present.
  intros [H | k f H | k f r Hk Hid Hkey H | i row Hrow H | i row Hc Hrow H]
         (_ & Hkeys & _) Hall r';
    try discriminate;
    apply stores_eq in H as (-> & -> & _); simpl; auto.
  - intros Hr'. rewrite lookup_insert_is_Some'. right. by apply Hall.
  - rewrite elem_of_app, list_elem_of_singleton, lookup_insert_is_Some'.
    intros [Hr' | ->]; [right; by apply Hall | by left].
  - rewrite filter_elem. intros [Hr' Hne].
    rewrite lookup_delete_is_Some. split; [|by apply Hall].
    intros Heq. apply lookup_row_Some in Hrow as [Hrow Hi].
    assert (row = r') as <- by (by apply (NoDup_fmap_same _ _ _ _ Hkeys Hrow Hr')).
    unfold has_id in Hne. rewrite Hi, Z.eqb_refl in Hne. discriminate.
Qed.

Lemma empty_world_table_ok : table_ok empty_world.
Proof. unfold table_ok. simpl. repeat split; constructor. Qed.

Lemma one_file_table_ok : table_ok one_file.
Proof.
  exact (table_ok_moved _ _ _
           (serve_moved Monolithic (Upload env1 hello_txt) empty_world)
           empty_world_table_ok).
Qed.

Lemma run_db_seq (v : variant) (rs : list request) (w : world) :
  db_seq w ≤ db_seq (run v rs w).
Proof.
  revert w. induction rs as [|r rs IH]; intros w; simpl; [lia|].
  pose proof (db_seq_moved _ _ _ (serve_moved v r w)).
  specialize (IH (snd (serve v r w))). lia.
Qed.

(** X1: whatever requests either application serves, in whatever
    environment, the table keeps its integrity: no two rows share an id, no
    two rows share an object key, and every id is positive and at most the
    AUTOINCREMENT mark. *)
Theorem X1_table_integrity_is_kept (v : variant) (rs : list request) (w : world) :
  table_ok w → table_ok (run v rs w).
Proof.
  revert w. induction rs as [|r rs IH]; intros w Hw; simpl; [exact Hw|].
  apply IH. exact (table_ok_moved _ _ _ (serve_moved v r w) Hw).
Qed.

Lemma X1_sample_run_keeps_integrity :
  table_ok (run Monolithic sample_run empty_world).
Proof.
  apply X1_table_integrity_is_kept.
  unfold table_ok. simpl. repeat split; constructor.
Defined.

(** X2: ids are never reused.  A record that is in the table at some point
    has an id below every id assigned later, after any run of requests of
    either application, also when the record has been deleted in between:
    the next row id, and the id a later monolithic upload is answered with,
    are larger. *)
Theorem X2_ids_are_never_reused
    (v : variant) (rs : list request) (w w' : world) (r : Row.t)
    (e : env) (file : UploadFile.t) (resp : app.FileUploadResponse.t) :
  table_ok w →
  r ∈ db_rows w →
  app.upload_file e file (run v rs w) = (Ok resp, w') →
  Row.id r < next_rowid (run v rs w) ∧
  Row.id r < app.FileUploadResponse.id resp.
Proof.
  intros (_ & _ & Hall) Hr Hup.
  rewrite Forall_forall in Hall. specialize (Hall r Hr).
  pose proof (run_db_seq v rs w) as Hseq.
  assert (Row.id r < next_rowid (run v rs w)) as Hlt.
  { unfold next_rowid. lia. }
  split; [exact Hlt|].
  apply app_upload_inv in Hup as (_ & _ & _ & -> & _). exact Hlt.
Qed.

Lemma X2_id_of_deleted_record_not_reused :
  ∃ resp w', app.upload_file env2 hello_plain (run Monolithic [Delete env2 1] one_file)
               = (Ok resp, w') ∧
             1 < app.FileUploadResponse.id resp.
Proof.
  eexists _, _. split; [reflexivity|].
  refine (proj2 (X2_ids_are_never_reused Monolithic [Delete env2 1] one_file _
                   (app_row env1 hello_txt empty_world) env2 hello_plain _ _ _ eq_refl)).
  - exact one_file_table_ok.
  - by apply list_elem_of_singleton.
Defined.

(** X3: as long as no DELETE statement fails, every record has its blob:
    each object key in the table names a blob in the bucket, after any run
    of requests of either application, whatever else fails. *)
Theorem X3_every_record_has_its_blob
    (v : variant) (rs : list request) (w : world) :
  table_ok w →
  blobs_present w →
  forallb delete_commits rs = true →
  blobs_present (run v rs w).
Proof.
  revert w. induction rs as [|r rs IH]; intros w Hw Hb Hrs; simpl; [exact Hb|].
  simpl in Hrs. apply andb_prop in Hrs as [Hr Hrs].
  pose proof (serve_moved v r w) as Hm. rewrite Hr in Hm.
  apply IH; [| |exact Hrs].
  - exact (table_ok_moved _ _ _ Hm Hw).
  - exact (blobs_present_moved _ _ Hm Hw Hb).
Qed.

Lemma X3_sample_run_has_its_blobs :
  blobs_present (run Monolithic sample_run empty_world).
Proof.
  apply X3_every_record_has_its_blob.
  - unfold table_ok. simpl. repeat split; constructor.
  - intros r Hr. simpl in Hr. by apply elem_of_nil in Hr.
  - reflexivity.
Defined.

(** X4: every blob either application ever writes carries the byte count of
    its own content and a non-empty content type; no request breaks that. *)
Theorem X4_blobs_are_well_formed (v : variant) (rs : list request) (w : world) :
  bucket_ok w → bucket_ok (run v rs w).
Proof.
  revert w. induction rs as [|r rs IH]; intros w Hw; simpl; [exact Hw|].
  apply IH. exact (bucket_ok_moved _ _ _ (serve_moved v r w) Hw).
Qed.

Lemma X4_sample_run_blobs_well_formed :
  bucket_ok (run Layered sample_run empty_world).
Proof.
  apply X4_blobs_are_well_formed.
  intros k b Hb. simpl in Hb. by rewrite lookup_empty in Hb.
Defined.

(** ** Reads *)

Lemma app_download_log (e : env) (file_id : Z) (w : world) :
  log (snd (app.download_file e file_id w)) = log w ∨
  ∃ row, lookup_row file_id w = Some row ∧
         log (snd (app.download_file e file_id w))
           = log w ++ [EvGet (Row.minio_object_key row)].
Proof.
  destruct (lookup_row file_id w) as [row|] eqn:Hrow.
  2:{ left. destruct (in_int64 file_id) eqn:Hr.
      - by rewrite (app_download_missing e file_id w Hrow Hr).
      - by rewrite (app_download_overflow e file_id w Hrow Hr). }
  destruct (store_fault e) as [x|] eqn:Hs.
  { left. by rewrite (app_download_fault e file_id w row x Hrow Hs). }
  destruct (bucket w !! Row.minio_object_key row) as [b|] eqn:Hb.
  2:{ left. by rewrite (app_download_blob_missing e file_id w row Hrow Hs Hb). }
  right. exists row. split; [reflexivity|].
  destruct (response_encodable row) eqn:He.
  - by destruct (app_download_ok e file_id w row b Hrow Hs Hb He)
      as (w' & -> & _ & _ & Hlog).
  - by destruct (app_download_unencodable e file_id w row b Hrow Hs Hb He)
      as (w' & -> & _ & _ & Hlog).
Qed.

(** X5: the two GET endpoints never write.  In both applications, whatever
    the outcome, a listing returns the world it was given and a download
    leaves the bucket, the table and the AUTOINCREMENT mark as they were; the
    only call a download can add to the log is one [get_object] of the
    record's key. *)
Theorem X5_reads_never_write (e : env) (file_id : Z) (w : world) :
  snd (app.list_files w) = w ∧
  snd (main.list_files_endpoint w) = w ∧
  stores (snd (app.download_file e file_id w)) = stores w ∧
  snd (main.download_file e file_id w) = w ∧
  (log (snd (app.download_file e file_id w)) = log w ∨
   ∃ row, lookup_row file_id w = Some row ∧
          log (snd (app.download_file e file_id w))
            = log w ++ [EvGet (Row.minio_object_key row)]).
Proof.
  split; [reflexivity|].
  split; [by rewrite main_list_files_eq|].
  split; [apply app_download_stores|].
  split; [apply main_download_stores|].
  apply app_download_log.
Qed.

(** ** The layered application as a whole *)

Lemma main_upload_status (e : env) (file : UploadFile.t) (w : world) :
  status_of (fst (main.upload_file e file w)) = 500.
Proof.
  destruct (store_fault e) as [x|] eqn:Hs.
  { by rewrite (main_upload_store_fault e file w x Hs). }
  destruct (db_fault e) as [x|] eqn:Hd.
  { by rewrite (main_upload_db_fault e file w x Hs Hd). }
  destruct (key_taken (minio_service.object_key_of e file) (db_rows w)) eqn:Hk.
  { by rewrite (main_upload_duplicate e file w Hs Hd Hk). }
  by rewrite (main_upload_committed e file w Hs Hd Hk).
Qed.

(** X6: of the four endpoints of [main.py] only the listing can answer 200.
    Every upload, every download and every delete is answered with status
    500, for every request, table, bucket and environment; a download or a
    delete also leaves the world exactly as it was. *)
Theorem X6_layered_answers_500_except_listing (r : request) (w : world) :
  fst (serve Layered r w) = match r with ListFiles => 200 | _ => 500 end ∧
  match r with
  | Upload _ _ => True
  | _ => snd (serve Layered r w) = w
  end.
Proof.
  destruct r as [e file| |e file_id|e file_id]; simpl.
  - split; [apply main_upload_status | exact I].
  - by rewrite main_list_files_eq.
  - destruct (lookup_row file_id w) as [row|] eqn:H.
    + by rewrite (main_download_existing e file_id w row H).
    + destruct (in_int64 file_id) eqn:Hr.
      * by rewrite (main_download_missing e file_id w H Hr).
      * by rewrite (main_download_overflow e file_id w H Hr).
  - destruct (lookup_row file_id w) as [row|] eqn:H.
    + by rewrite (main_delete_existing e file_id w row H).
    + destruct (in_int64 file_id) eqn:Hr.
      * by rewrite (main_delete_missing e file_id w H Hr).
      * by rewrite (main_delete_overflow e file_id w H Hr).
Qed.

Lemma layered_step_grows (r : request) (w : world) :
  db_rows w `prefix_of` db_rows (snd (serve Layered r w)) ∧
  ∀ k, is_Some (bucket w !! k) → is_Some (bucket (snd (serve Layered r w)) !! k).
Proof.
  destruct r as [e file| |e file_id|e file_id]; simpl.
  2:{ rewrite main_list_files_eq. split; [reflexivity | auto]. }
  2:{ rewrite main_download_stores. split; [reflexivity | auto]. }
  2:{ rewrite main_delete_stores. split; [reflexivity | auto]. }
  destruct (store_fault e) as [x|] eqn:Hs.
  { rewrite (main_upload_store_fault e file w x Hs). split; [reflexivity | auto]. }
  assert (∀ k k' b, is_Some (bucket w !! k) →
                    is_Some (<[k' := b]> (bucket w) !! k)) as Hkeep.
  { intros k k' b Hk. rewrite lookup_insert_is_Some'. by right. }
  destruct (db_fault e) as [x|] eqn:Hd.
  { rewrite (main_upload_db_fault e file w x Hs Hd). simpl.
    split; [reflexivity | intros k; apply Hkeep]. }
  destruct (key_taken (minio_service.object_key_of e file) (db_rows w)) eqn:Hk.
  { rewrite (main_upload_duplicate e file w Hs Hd Hk). simpl.
    split; [reflexivity | intros k; apply Hkeep]. }
  rewrite (main_upload_committed e file w Hs Hd Hk). simpl.
  split; [by apply prefix_app_r | intros k; apply Hkeep].
Qed.

(** X7: the layered application never removes anything.  After any run of
    its requests the table still starts with the rows it had (rows are only
    appended) and every key that named a blob still names one; in particular
    its DELETE endpoint deletes neither a row nor a blob. *)
Theorem X7_layered_never_removes (rs : list request) (w : world) :
  db_rows w `prefix_of` db_rows (run Layered rs w) ∧
  ∀ k, is_Some (bucket w !! k) → is_Some (bucket (run Layered rs w) !! k).
Proof.
  revert w. induction rs as [|r rs IH]; intros w; simpl.
  { split; [reflexivity | auto]. }
  destruct (layered_step_grows r w) as [Hrows Hkeys].
  destruct (IH (snd (serve Layered r w))) as [Hrows' Hkeys'].
  split; [by etrans | auto].
Qed.

(** ** Outcomes of the monolithic upload and download *)

Lemma app_upload_error_500 (x : exn) :
  ∃ d, app_upload_error x = HTTPException 500 d.
Proof. destruct x; eexists; reflexivity. Qed.

(** X8: the monolithic upload answers 200 exactly when both stores take it
    (the put goes through, the INSERT statement does not fail and the
    generated key is not in the table yet); the answer then carries the new
    row id, the client's file name and the generated key.  In every other
    case the answer is 500, whatever exception was raised, and the table has
    the rows it had. *)
Theorem X8_app_upload_outcome (e : env) (file : UploadFile.t) (w : world) :
  if upload_accepted e (app.object_key_of e file) w then
    fst (app.upload_file e file w)
      = Ok (app.FileUploadResponse.mk (next_rowid w) (UploadFile.filename file)
              (uuid4 e +:+ "_" +:+ UploadFile.filename file)
              "File uploaded successfully") ∧
    db_rows (snd (app.upload_file e file w)) = db_rows w ++ [app_row e file w]
  else
    (∃ d, fst (app.upload_file e file w) = Raise (HTTPException 500 d)) ∧
    db_rows (snd (app.upload_file e file w)) = db_rows w.
Proof.
  unfold upload_accepted, insert_fails.
  destruct (store_fault e) as [x|] eqn:Hs.
  { rewrite (app_upload_store_fault e file w x Hs).
    destruct (app_upload_error_500 x) as [d ->]. split; [eauto | reflexivity]. }
  destruct (db_fault e) as [x|] eqn:Hd.
  { rewrite (app_upload_db_fault e file w x Hs Hd).
    destruct (app_upload_error_500 x) as [d ->]. split; [eauto | reflexivity]. }
  destruct (key_taken (app.object_key_of e file) (db_rows w)) eqn:Hk; simpl.
  { rewrite (app_upload_duplicate e file w Hs Hd Hk). split; [eauto | reflexivity]. }
  rewrite (app_upload_ok e file w Hs Hd Hk). split; reflexivity.
Qed.

Lemma get_object_eq (e : env) (key : string) (w : world) (b : Blob.t) :
  store_fault e = None → bucket w !! key = Some b →
  get_object e key w = (Ok (Blob.data b), logged (EvGet key) w).
Proof. intros Hs Hb. unfold get_object. by rewrite Hs, Hb. Qed.

Lemma app_download_eq (e : env) (file_id : Z) (w : world) (row : Row.t) (b : Blob.t) :
  lookup_row file_id w = Some row → store_fault e = None →
  bucket w !! Row.minio_object_key row = Some b →
  response_encodable row = true →
  app.download_file e file_id w =
    (Ok (StreamingResponse.mk (stream (32 * 1024) (Blob.data b))
           (Some (or_else (Row.content_type row) octet_stream))
           (attachment_headers (Row.file_name row))),
     logged (EvGet (Row.minio_object_key row)) w).
Proof.
  intros H Hs Hb He. unfold app.download_file, try_except, bind.
  rewrite (select_by_id_found _ _ _ H).
  rewrite (get_object_eq e _ w b Hs Hb).
  unfold lift, StreamingResponse.init.
  unfold response_encodable in He. by rewrite He.
Qed.

Lemma app_download_unencodable_eq (e : env) (file_id : Z) (w : world)
    (row : Row.t) (b : Blob.t) :
  lookup_row file_id w = Some row → store_fault e = None →
  bucket w !! Row.minio_object_key row = Some b →
  response_encodable row = false →
  app.download_file e file_id w =
    (Raise (HTTPException 500 (FString "Download error: " UnicodeEncodeError)),
     logged (EvGet (Row.minio_object_key row)) w).
Proof.
  intros H Hs Hb He. unfold app.download_file, try_except, bind.
  rewrite (select_by_id_found _ _ _ H).
  rewrite (get_object_eq e _ w b Hs Hb).
  unfold lift, StreamingResponse.init.
  unfold response_encodable in He. by rewrite He.
Qed.

Lemma key_taken_intro (key : string) (rows : list Row.t) (r : Row.t) :
  r ∈ rows → Row.minio_object_key r = key → key_taken key rows = true.
Proof.
  intros Hin Hk. unfold key_taken. apply existsb_exists.
  exists r. split; [by apply list_elem_of_In | by apply String.eqb_eq].
Qed.

(** X9: the blob is written before the key is checked.  When the generated
    key of a monolithic upload is the key of an existing record, the upload
    is answered with 500 and the table is unchanged, but the blob under that
    key has already been replaced: a download of the existing record (one
    whose file name and content type can be encoded as latin-1, so that its
    response can be built) now streams the content of the rejected upload. *)
Theorem X9_rejected_upload_has_replaced_the_blob
    (e e' : env) (file : UploadFile.t) (w : world) (file_id : Z) (old : Row.t) :
  lookup_row file_id w = Some old →
  Row.minio_object_key old = app.object_key_of e file →
  latin1 (Row.file_name old) = true →
  latin1 (or_else (Row.content_type old) octet_stream) = true →
  store_fault e = None →
  store_fault e' = None →
  ∃ d r w' w'',
    app.upload_file e file w = (Raise (HTTPException 500 d), w') ∧
    db_rows w' = db_rows w ∧
    app.download_file e' file_id w' = (Ok r, w'') ∧
    List.concat (StreamingResponse.body r) = UploadFile.content file.
Proof.
  intros Hold Hkey Hname Hct Hs Hs'.
  set (k := app.object_key_of e file) in *.
  assert (response_encodable old = true) as Henc.
  { by rewrite response_encodable_eq, Hname, Hct. }
  assert (key_taken k (db_rows w) = true) as Hk.
  { apply lookup_row_Some in Hold as [Hin _]. by apply (key_taken_intro k _ old). }
  assert (∃ d, app.upload_file e file w
               = (Raise (HTTPException 500 d), put_blob k (blob_of file) w))
    as [d Hup].
  { destruct (db_fault e) as [x|] eqn:Hd.
    - rewrite (app_upload_db_fault e file w x Hs Hd).
      destruct (app_upload_error_500 x) as [d ->]. eauto.
    - rewrite (app_upload_duplicate e file w Hs Hd Hk). eauto. }
  assert (bucket (put_blob k (blob_of file) w) !! Row.minio_object_key old
          = Some (blob_of file)) as Hb.
  { rewrite Hkey. simpl. apply lookup_insert_eq. }
  exists d. eexists. exists (put_blob k (blob_of file) w). eexists.
  split; [exact Hup|]. split; [reflexivity|].
  split; [exact (app_download_eq e' file_id (put_blob k (blob_of file) w) old
                  (blob_of file) Hold Hs' Hb Henc)|].
  cbn [StreamingResponse.body]. apply (stream_concat (32 * 1024)). lia.
Qed.

Lemma X9_same_uuid_same_name :
  ∃ d r w' w'',
    app.upload_file env1 hello_plain one_file = (Raise (HTTPException 500 d), w') ∧
    app.download_file env2 1 w' = (Ok r, w'') ∧
    List.concat (StreamingResponse.body r) = UploadFile.content hello_plain.
Proof.
  destruct (X9_rejected_upload_has_replaced_the_blob env1 env2 hello_plain one_file 1
              (app_row env1 hello_txt empty_world)
              eq_refl eq_refl eq_refl eq_refl eq_refl eq_refl)
    as (d & r & w' & w'' & Hup & _ & Hdl & Hcat).
  exists d, r, w', w''. auto.
Defined.

(** X10: the status of a monolithic download, when the object store fails
    only with its own errors.  For an id without a row: 404 when SQLite can
    bind the id (it is within signed 64 bits), 500 when it cannot.  For an
    id with a row: 200 when the store answers, the blob exists and the file
    name and the content type of the record can be encoded as latin-1 for the
    response headers; 500 in every other case (the store is down or answers
    with an error, the blob is missing, or the headers cannot be written). *)
Theorem X10_app_download_status (e : env) (file_id : Z) (w : world) :
  store_errors_only e = true →
  fst (serve Monolithic (Download e file_id) w) =
    match lookup_row file_id w with
    | None => if in_int64 file_id then 404 else 500
    | Some row =>
        match store_fault e, bucket w !! Row.minio_object_key row with
        | None, Some _ =>
            if latin1 (Row.file_name row) &&
               latin1 (or_else (Row.content_type row) octet_stream)
            then 200 else 500
        | _, _ => 500
        end
    end.
Proof.
  intros Hse. simpl.
  destruct (lookup_row file_id w) as [row|] eqn:H.
  2:{ destruct (in_int64 file_id) eqn:Hr.
      - by rewrite (app_download_missing e file_id w H Hr).
      - by rewrite (app_download_overflow e file_id w H Hr). }
  destruct (store_fault e) as [x|] eqn:Hs.
  { rewrite (app_download_fault e file_id w row x H Hs).
    destruct (app_error_store "Download error: " x) as [d ->]; [|reflexivity].
    by apply (store_errors_only_fault e). }
  destruct (bucket w !! Row.minio_object_key row) as [b|] eqn:Hb.
  - rewrite <- response_encodable_eq.
    destruct (response_encodable row) eqn:He.
    + by rewrite (app_download_eq e file_id w row b H Hs Hb He).
    + by rewrite (app_download_unencodable_eq e file_id w row b H Hs Hb He).
  - by rewrite (app_download_blob_missing e file_id w row H Hs Hb).
Qed.

Lemma X10_store_down_is_500 :
  fst (serve Monolithic (Download store_down 1) one_file) = 500.
Proof. exact (X10_app_download_status store_down 1 one_file eq_refl). Defined.

(** ** Delete and the other records *)

Lemma find_filter_other (rows : list Row.t) (i j : Z) :
  j ≠ i →
  List.find (has_id j) (List.filter (λ r, negb (has_id i r)) rows)
    = List.find (has_id j) rows.
Proof.
  intros Hne. induction rows as [|r rows IH]; [reflexivity|]. simpl.
  destruct (has_id i r) eqn:Hi; simpl.
  - assert (has_id j r = false) as ->; [|exact IH].
    unfold has_id in *. apply Z.eqb_eq in Hi. apply Z.eqb_neq. lia.
  - destruct (has_id j r); [reflexivity | exact IH].
Qed.

Lemma app_delete_stores_cases (e : env) (file_id : Z) (w : world) :
  stores (snd (app.delete_file e file_id w)) = stores w ∨
  ∃ row, lookup_row file_id w = Some row ∧
    (stores (snd (app.delete_file e file_id w))
       = stores (lose_race file_id (Row.minio_object_key row) w) ∨
     stores (snd (app.delete_file e file_id w))
       = stores (drop_blob (Row.minio_object_key row) w)).
Proof.
  destruct (lookup_row file_id w) as [row|] eqn:H.
  2:{ left. destruct (in_int64 file_id) eqn:Hr.
      - by rewrite (app_delete_missing e file_id w H Hr).
      - by rewrite (app_delete_overflow e file_id w H Hr). }
  rewrite (app_delete_world e file_id w row H).
  set (k := Row.minio_object_key row).
  destruct (concurrent_delete e).
  - right. exists row. split; [reflexivity|]. left.
    destruct (remove_object_cases e k (lose_race file_id k w))
      as [(x & -> & _) | (-> & _)]; [reflexivity|].
    destruct (db_fault e); unfold stores; simpl;
      by rewrite delete_delete_eq, ?filter_twice.
  - destruct (remove_object_cases e k w) as [(x & -> & _) | (-> & _)].
    { by left. }
    right. exists row. split; [reflexivity|].
    destruct (db_fault e); [by right | by left].
Qed.

(** X11: a monolithic delete touches one record only.  Whatever the
    environment does (faults, a concurrent delete of the same id), the row of
    every other id is afterwards what it was, and so is the blob under every
    key other than the key of the deleted record. *)
Theorem X11_delete_leaves_other_records
    (e : env) (file_id other : Z) (key : string) (w : world) :
  (other ≠ file_id →
   lookup_row other (snd (app.delete_file e file_id w)) = lookup_row other w) ∧
  ((∀ row, lookup_row file_id w = Some row → Row.minio_object_key row ≠ key) →
   bucket (snd (app.delete_file e file_id w)) !! key = bucket w !! key).
Proof.
  unfold lookup_row.
  destruct (app_delete_stores_cases e file_id w) as [H | (row & Hrow & [H | H])];
    apply stores_eq in H as (-> & -> & _); simpl.
  - by split.
  - split.
    + intros Hne. by apply find_filter_other.
    + intros Hk. apply lookup_delete_ne. by apply Hk.
  - split; [reflexivity|].
    intros Hk. apply lookup_delete_ne. by apply Hk.
Qed.

Lemma X11_other_record_survives :
  lookup_row 1 (snd (app.delete_file env2 2 (run Monolithic [Upload env2 hello_plain] one_file)))
    = Some (app_row env1 hello_txt empty_world).
Proof.
  exact (proj1 (X11_delete_leaves_other_records env2 2 1 EmptyString
                  (run Monolithic [Upload env2 hello_plain] one_file))
           ltac:(lia)).
Defined.

(** X12: a monolithic delete is not atomic.  If the blob is removed and the
    DELETE statement then fails, the request is answered with 500, the row
    stays and its blob is gone: every later download of the record is
    answered with 500, and on a store that reports an absent key every later
    delete fails with 500 before it reaches the row, leaving the world as it
    is. *)
Theorem X12_failed_delete_leaves_a_dangling_record
    (e : env) (file_id : Z) (w : world) (row : Row.t) (b : Blob.t) (msg : string) :
  lookup_row file_id w = Some row →
  bucket w !! Row.minio_object_key row = Some b →
  store_fault e = None →
  concurrent_delete e = false →
  db_fault e = Some (OperationalError msg) →
  ∃ w',
    snd (app.delete_file e file_id w) = w' ∧
    fst (serve Monolithic (Delete e file_id) w) = 500 ∧
    lookup_row file_id w' = Some row ∧
    bucket w' !! Row.minio_object_key row = None ∧
    (∀ e', store_fault e' = None →
       fst (serve Monolithic (Download e' file_id) w') = 500) ∧
    (∀ e', store_fault e' = None → remove_missing_raises e' = true →
       concurrent_delete e' = false →
       app.delete_file e' file_id w'
         = (Raise (HTTPException 500 (FString "MinIO error: " (S3Error "NoSuchKey"))),
            w')).
Proof.
  intros Hrow Hb Hs Hc Hd.
  set (k := Row.minio_object_key row) in *.
  pose proof (app_delete_db_fault e file_id w row _ Hrow Hc
                (remove_object_present e k w b Hs Hb) Hd) as Hdel.
  exists (drop_blob k w). simpl. rewrite Hdel. simpl.
  assert (bucket (drop_blob k w) !! k = None) as Hgone.
  { simpl. apply lookup_delete_eq. }
  split; [reflexivity|]. split; [reflexivity|].
  split; [exact Hrow|]. split; [exact Hgone|]. split.
  - intros e' Hs'.
    by rewrite (app_download_blob_missing e' file_id (drop_blob k w) row Hrow Hs' Hgone).
  - intros e' Hs' Hstrict Hc'.
    exact (app_delete_remove_raises e' file_id (drop_blob k w) row _ Hrow Hc'
             (remove_object_absent_strict e' k (drop_blob k w) Hs' Hgone Hstrict)).
Qed.

Lemma X12_database_locked_during_delete :
  ∃ w', snd (app.delete_file db_locked 1 one_file) = w' ∧
        fst (serve Monolithic (Download env2 1) w') = 500.
Proof.
  destruct (X12_failed_delete_leaves_a_dangling_record db_locked 1 one_file
              (app_row env1 hello_txt empty_world) (blob_of hello_txt)
              "database is locked" eq_refl eq_refl eq_refl eq_refl eq_refl)
    as (w' & Hw' & _ & _ & _ & Hdl & _).
  exists w'. split; [exact Hw'|]. by apply Hdl.
Defined.

(** ** A whole session *)

Lemma filter_keeps (rows : list Row.t) (i : Z) :
  (∀ r, r ∈ rows → Row.id r < i) →
  List.filter (λ r, negb (has_id i r)) rows = rows.
Proof.
  intros Hlt. induction rows as [|r rows IH]; [reflexivity|]. simpl.
  assert (has_id i r = false) as ->.
  { unfold has_id. apply Z.eqb_neq.
    specialize (Hlt r ltac:(apply elem_of_cons; auto)). lia. }
  simpl. f_equal. apply IH. intros r' Hr'. apply Hlt. apply elem_of_cons; auto.
Qed.

(** X13: store, read back, remove, on the monolithic application.  With
    both stores working, a key that is new to the table and the bucket, a
    file whose name and content type can be encoded as latin-1 (so that the
    download can write its response headers) and a next row id within signed
    64 bits, the six requests (upload, list, download of the new id, delete
    of it, list, download again) are answered 200, 200, 200, 200, 200, 404,
    and afterwards the bucket and the rows of the table are exactly what
    they were before the upload; only the AUTOINCREMENT mark has moved, to
    the id that was used. *)
Theorem X13_store_read_remove_restores_the_stores
    (e : env) (file : UploadFile.t) (w : world) :
  store_fault e = None →
  db_fault e = None →
  concurrent_delete e = false →
  key_taken (app.object_key_of e file) (db_rows w) = false →
  bucket w !! app.object_key_of e file = None →
  servable file = true →
  in_int64 (next_rowid w) = true →
  statuses Monolithic (store_read_remove e file (next_rowid w)) w
    = [200; 200; 200; 200; 200; 404] ∧
  stores (run Monolithic (store_read_remove e file (next_rowid w)) w)
    = (bucket w, db_rows w, next_rowid w).
Proof.
  intros Hs Hd Hc Hk Hfree Hserv Hrange.
  set (k := app.object_key_of e file) in *.
  set (i := next_rowid w) in *.
  set (row := app_row e file w).
  set (w1 := upload_committed k file row w).
  set (w2 := logged (EvGet k) w1).
  set (w3 := drop_row i (drop_blob k w2)).
  assert (lookup_row i w1 = Some row) as Hrow1.
  { exact (lookup_row_add_row row (put_blob k (blob_of file) w) eq_refl). }
  assert (bucket w1 !! k = Some (blob_of file)) as Hb1.
  { apply bucket_upload_committed. }
  pose proof (app_upload_ok e file w Hs Hd Hk) as E1. fold k i row w1 in E1.
  pose proof (app_download_eq e i w1 row (blob_of file) Hrow1 Hs Hb1
                (eq_trans (app_row_encodable e file w) Hserv)) as E3.
  change (logged (EvGet (Row.minio_object_key row)) w1) with w2 in E3.
  assert (app.delete_file e i w2 = (Ok (FileDeleted i), w3)) as E4.
  { apply (app_delete_ok e i w2 row Hrow1 Hc); [|exact Hd].
    exact (remove_object_present e k w2 (blob_of file) Hs Hb1). }
  assert (lookup_row i w3 = None) as Hgone by apply lookup_row_drop_row.
  pose proof (app_download_missing e i w3 Hgone Hrange) as E6.
  unfold store_read_remove. fold i.
  split.
  - cbn [statuses serve]. rewrite E1. cbn [fst snd status_of].
    rewrite (app_list_files_eq w1). cbn [fst snd status_of].
    rewrite E3. cbn [fst snd status_of].
    rewrite E4. cbn [fst snd status_of].
    rewrite (app_list_files_eq w3). cbn [fst snd status_of].
    rewrite E6. reflexivity.
  - cbn [run serve]. rewrite E1. cbn [fst snd].
    rewrite (app_list_files_eq w1). cbn [fst snd].
    rewrite E3. cbn [fst snd]. rewrite E4. cbn [fst snd].
    rewrite (app_list_files_eq w3). cbn [fst snd].
    rewrite E6. cbn [fst snd].
    unfold stores, w3, w2, w1, upload_committed. simpl.
    rewrite (delete_insert_id _ _ _ Hfree).
    rewrite List.filter_app, (filter_keeps (db_rows w) i). 
    + simpl. unfold has_id. simpl. fold i. rewrite Z.eqb_refl. simpl.
      by rewrite app_nil_r.
    + intros r Hr. by apply next_rowid_fresh.
Qed.

Lemma X13_hello_stored_read_removed :
  statuses Monolithic (store_read_remove env1 hello_txt 1) empty_world
    = [200; 200; 200; 200; 200; 404].
Proof.
  exact (proj1 (X13_store_read_remove_restores_the_stores env1 hello_txt empty_world
                  eq_refl eq_refl eq_refl eq_refl eq_refl eq_refl eq_refl)).
Defined.

(** X14: the same session on the layered application.  Under the same
    conditions the six requests are answered 500, 200, 500, 500, 200, 500,
    and what is left is exactly the world after the rejected-looking upload:
    the blob and the row it wrote are there, and neither the download nor the
    delete has touched them. *)
Theorem X14_store_read_remove_on_layered
    (e : env) (file : UploadFile.t) (w : world) :
  store_fault e = None →
  db_fault e = None →
  key_taken (minio_service.object_key_of e file) (db_rows w) = false →
  statuses Layered (store_read_remove e file (next_rowid w)) w
    = [500; 200; 500; 500; 200; 500] ∧
  run Layered (store_read_remove e file (next_rowid w)) w
    = upload_committed (minio_service.object_key_of e file) file (main_row e file w) w ∧
  lookup_row (next_rowid w) (run Layered (store_read_remove e file (next_rowid w)) w)
    = Some (main_row e file w).
Proof.
  intros Hs Hd Hk.
  set (k := minio_service.object_key_of e file) in *.
  set (i := next_rowid w).
  set (row := main_row e file w).
  set (w1 := upload_committed k file row w).
  assert (lookup_row i w1 = Some row) as Hrow1.
  { exact (lookup_row_add_row row (put_blob k (blob_of file) w) eq_refl). }
  pose proof (main_upload_committed e file w Hs Hd Hk) as E1. fold k row w1 in E1.
  pose proof (main_download_existing e i w1 row Hrow1) as E3.
  pose proof (main_delete_existing e i w1 row Hrow1) as E4.
  unfold store_read_remove. fold i.
  split; [|split].
  - cbn [statuses serve]. rewrite E1. cbn [fst snd status_of].
    rewrite (main_list_files_eq w1). cbn [fst snd status_of].
    rewrite E3. cbn [fst snd status_of]. rewrite E4. cbn [fst snd status_of].
    rewrite (main_list_files_eq w1). cbn [fst snd status_of].
    rewrite E3. reflexivity.
  - cbn [run serve]. rewrite E1. cbn [fst snd].
    rewrite (main_list_files_eq w1). cbn [fst snd].
    rewrite E3. cbn [fst snd]. rewrite E4. cbn [fst snd].
    rewrite (main_list_files_eq w1). cbn [fst snd].
    rewrite E3. reflexivity.
  - cbn [run serve]. rewrite E1. cbn [fst snd].
    rewrite (main_list_files_eq w1). cbn [fst snd].
    rewrite E3. cbn [fst snd]. rewrite E4. cbn [fst snd].
    rewrite (main_list_files_eq w1). cbn [fst snd].
    rewrite E3. exact Hrow1.
Qed.

Lemma X14_hello_on_layered :
  statuses Layered (store_read_remove env1 hello_txt 1) empty_world
    = [500; 200; 500; 500; 200; 500].
Proof.
  exact (proj1 (X14_store_read_remove_on_layered env1 hello_txt empty_world
                  eq_refl eq_refl eq_refl)).
Defined.

(** ** Chunks of a streamed body *)




(** ** The extension in the layered object key *)

Lemma append_cons (c : ascii) (a s : string) :
  String c a +:+ s = String c (a +:+ s).
Proof. reflexivity. Qed.

Lemma append_assoc_one (a : string) (c : ascii) (s : string) :
  (a +:+ String c EmptyString) +:+ s = a +:+ String c s.
Proof.
  induction a as [|c' a IH]; [reflexivity|].
  by rewrite !append_cons, IH.
Qed.

Lemma append_empty_r (a : string) : a +:+ EmptyString = a.
Proof.
  induction a as [|c a IH]; [reflexivity|]. by rewrite append_cons, IH.
Qed.

Lemma has_dot_append (a s : string) :
  has_dot (a +:+ s) = has_dot a || has_dot s.
Proof.
  induction a as [|c a IH]; [reflexivity|].
  rewrite append_cons. simpl. by rewrite IH, orb_assoc.
Qed.

Lemma split_last_from_spec (acc s : string) :
  has_dot acc = false →
  has_dot (split_last_from acc s) = false ∧
  ((has_dot s = false ∧ split_last_from acc s = acc +:+ s) ∨
   ∃ p, s = p +:+ "." +:+ split_last_from acc s).
Proof.
  revert acc. induction s as [|c s IH]; intros acc Hacc.
  - split; [exact Hacc|]. left. split; [reflexivity|].
    simpl. by rewrite append_empty_r.
  - cbn [split_last_from has_dot].
    destruct (Ascii.eqb c ".") eqn:Hc.
    + apply Ascii.eqb_eq in Hc as ->.
      destruct (IH EmptyString eq_refl) as [Hno [[Hs Heq] | [p Hp]]].
      * split; [exact Hno|]. right. exists EmptyString. by rewrite Heq.
      * split; [exact Hno|]. right. exists (String "." p).
        by rewrite append_cons, <- Hp.
    + destruct (IH (acc +:+ String c EmptyString)) as [Hno [[Hs Heq] | [p Hp]]].
      { rewrite has_dot_append, Hacc. simpl. by rewrite Hc. }
      * split; [exact Hno|]. left. split; [exact Hs|].
        by rewrite Heq, append_assoc_one.
      * split; [exact Hno|]. right. exists (String c p).
        by rewrite append_cons, <- Hp.
Qed.

(** X16: the extension the layered object key ends with,
    [filename.split(".")[-1]], contains no dot.  For a file name without a
    dot it is the whole file name; otherwise the file name is some text, a
    dot, and the extension (which is empty when the name ends with a dot).
    The key itself is the UUID, [_file.] and that extension. *)
Theorem X16_layered_key_extension (e : env) (file : UploadFile.t) :
  let ext := split_dot_last (UploadFile.filename file) in
  has_dot ext = false ∧
  (if has_dot (UploadFile.filename file)
   then ∃ p, UploadFile.filename file = p +:+ "." +:+ ext
   else ext = UploadFile.filename file) ∧
  minio_service.object_key_of e file = uuid4 e +:+ "_file." +:+ ext.
Proof.
  simpl. unfold split_dot_last.
  destruct (split_last_from_spec EmptyString (UploadFile.filename file) eq_refl)
    as [Hno [[Hs Heq] | [p Hp]]].
  - split; [exact Hno|]. split; [|reflexivity]. by rewrite Hs.
  - split; [exact Hno|]. split; [|reflexivity].
    destruct (has_dot (UploadFile.filename file)) eqn:Hd; [by exists p|].
    rewrite Hp, has_dot_append in Hd. simpl in Hd.
    rewrite orb_true_r in Hd. discriminate.
Qed.

(** ** Startup *)

Lemma ensure_bucket_ok (name : string) (s : site) :
  ensure_bucket no_boot_faults name s =
    (Ok tt,
     match site_buckets s !! name with
     | Some _ => print (Literal ("Bucket '" +:+ name +:+ "' already exists")) s
     | None =>
         print (Literal ("Bucket '" +:+ name +:+ "' created successfully"))
           {| site_table := site_table s;
              site_buckets := <[name := ∅]> (site_buckets s);
              stdout := stdout s |}
     end).
Proof. unfold ensure_bucket. simpl. by destruct (site_buckets s !! name). Qed.

Lemma open_blank_site_after_startup (name : string) :
  open_site name (snd (lifespan no_boot_faults name blank_site)) = Some empty_world.
Proof.
  unfold lifespan, init_db. cbn [create_table_fault no_boot_faults site_table blank_site].
  rewrite ensure_bucket_ok. cbn [site_buckets snd].
  change (site_buckets blank_site) with (∅ : gmap string (gmap string Blob.t)).
  rewrite lookup_empty. unfold open_site. cbn [site_table site_buckets print].
  by rewrite lookup_insert_eq.
Qed.

(** X17: startup creates what is missing and nothing else.  When no call
    fails, [lifespan] succeeds; afterwards the table exists, with the rows it
    had if it was there and empty otherwise, and the bucket exists, with the
    blobs it had if it was there and empty otherwise; other buckets are
    untouched.  Running it again changes neither the table nor any bucket
    and only prints that the bucket already exists.  On a blank deployment
    the handlers start from the empty table and the empty bucket. *)
Theorem X17_startup_creates_what_is_missing (name : string) (s : site) :
  ∃ s' s'',
    lifespan no_boot_faults name s = (Ok tt, s') ∧
    site_table s' = Some (default ([], 0) (site_table s)) ∧
    site_buckets s' !! name = Some (default ∅ (site_buckets s !! name)) ∧
    (∀ n, n ≠ name → site_buckets s' !! n = site_buckets s !! n) ∧
    lifespan no_boot_faults name s' = (Ok tt, s'') ∧
    site_table s'' = site_table s' ∧
    site_buckets s'' = site_buckets s' ∧
    stdout s'' = stdout s' ++ [Literal ("Bucket '" +:+ name +:+ "' already exists")] ∧
    open_site name (snd (lifespan no_boot_faults name blank_site)) = Some empty_world.
Proof.
  assert (∀ t : site, is_Some (site_table t) →
            init_db no_boot_faults t = (Ok tt, t)) as Hinit.
  { intros t [x Hx]. unfold init_db. simpl. by rewrite Hx. }
  pose (s1 := snd (init_db no_boot_faults s)).
  assert (init_db no_boot_faults s = (Ok tt, s1)) as E1 by reflexivity.
  assert (site_table s1 = Some (default ([], 0) (site_table s)) ∧
          site_buckets s1 = site_buckets s) as [Ht1 Hb1].
  { unfold s1, init_db. simpl. destruct (site_table s) eqn:E; simpl; by rewrite ?E. }
  pose (s' := snd (ensure_bucket no_boot_faults name s1)).
  assert (ensure_bucket no_boot_faults name s1 = (Ok tt, s')) as E2.
  { unfold s'. by rewrite ensure_bucket_ok. }
  assert (site_table s' = site_table s1 ∧
          site_buckets s' !! name = Some (default ∅ (site_buckets s !! name)) ∧
          (∀ n, n ≠ name → site_buckets s' !! n = site_buckets s !! n))
    as (Ht' & Hb' & Hother).
  { unfold s'. rewrite ensure_bucket_ok, Hb1. simpl.
    destruct (site_buckets s !! name) eqn:E; simpl.
    - rewrite Hb1. by rewrite E.
    - rewrite lookup_insert_eq. repeat split.
      intros n Hn. by rewrite lookup_insert_ne. }
  exists s', (print (Literal ("Bucket '" +:+ name +:+ "' already exists")) s').
  unfold lifespan. rewrite E1, E2.
  split; [reflexivity|]. split; [by rewrite Ht'|].
  split; [exact Hb'|]. split; [exact Hother|].
  rewrite (Hinit s') by (rewrite Ht', Ht1; eauto).
  rewrite ensure_bucket_ok, Hb'.
  do 4 (split; [reflexivity|]).
  apply open_blank_site_after_startup.
Qed.

(** X18: how startup fails.  If creating the table fails, nothing else is
    attempted and the site is as it was.  If a bucket call fails, the table
    has been created all the same and the error is passed on; an [S3Error]
    is reported on standard output first, any other exception (such as an
    unreachable store) is not.  In no failing case is a bucket created or
    changed. *)
Theorem X18_startup_failures
    (b : boot_env) (name : string) (s s' : site) (x : exn) :
  lifespan b name s = (Raise x, s') →
  site_buckets s' = site_buckets s ∧
  match create_table_fault b with
  | Some y => x = y ∧ s' = s
  | None =>
      is_Some (site_table s') ∧
      (bucket_exists_fault b = Some x ∨
       (site_buckets s !! name = None ∧ make_bucket_fault b = Some x)) ∧
      stdout s' = stdout s ++
        match x with
        | S3Error _ => [FString "Error ensuring bucket: " x]
        | _ => []
        end
  end.
Proof.
  unfold lifespan, init_db.
  destruct (create_table_fault b) as [y|].
  { intros [= <- <-]. auto. }
  set (s1 := match site_table s with Some _ => s | None => _ end).
  assert (is_Some (site_table s1) ∧ site_buckets s1 = site_buckets s ∧
          stdout s1 = stdout s) as (Ht & Hb & Ho).
  { unfold s1. destruct (site_table s) eqn:E; simpl; rewrite ?E; eauto. }
  unfold ensure_bucket. rewrite Hb.
  destruct (bucket_exists_fault b) as [y|].
  { destruct y; intros [= <- <-]; simpl; rewrite ?Ho, ?app_nil_r; auto. }
  destruct (site_buckets s !! name); [discriminate|].
  destruct (make_bucket_fault b) as [y|]; [|discriminate].
  destruct y; intros [= <- <-]; simpl; rewrite ?Ho, ?app_nil_r; auto 6.
Qed.

Lemma X18_store_unreachable_at_startup :
  ∃ s', lifespan store_unreachable "files" blank_site = (Raise MaxRetryError, s') ∧
        is_Some (site_table s') ∧ stdout s' = [].
Proof.
  eexists. split; [reflexivity|].
  destruct (X18_startup_failures store_unreachable "files" blank_site _ MaxRetryError
              eq_refl) as (_ & Ht & _ & Ho).
  split; [exact Ht | exact Ho].
Defined.

(** ** The services on their own *)

(** X19: [add_file_metadata] never returns.  When the INSERT goes through,
    the row is committed (with the next row id, the given fields and the
    current timestamp) and the read-back of that row then raises the
    validation error; when the key is already in the table it raises the
    integrity error, and when the statement fails it raises that failure,
    both with the table unchanged. *)
Theorem X19_add_file_metadata_commits_then_raises
    (e : env) (file_name object_key : string) (content_type : option string)
    (file_size : option Z) (w : world) :
  database_service.add_file_metadata e file_name object_key content_type file_size w =
    match db_fault e with
    | Some x => (Raise x, w)
    | None =>
        if key_taken object_key (db_rows w) then
          (Raise (IntegrityError "UNIQUE constraint failed: files.minio_object_key"), w)
        else
          (Raise (ValidationError "created_at"),
           add_row (Row.mk (next_rowid w) file_name object_key content_type
                      file_size (current_timestamp e)) w)
    end.
Proof.
  unfold database_service.add_file_metadata, bind.
  destruct (db_fault e) as [x|] eqn:Hd.
  { by rewrite (insert_file_fault e w _ _ _ _ x Hd). }
  destruct (key_taken object_key (db_rows w)) eqn:Hk.
  { by rewrite (insert_file_duplicate e w _ _ _ _ Hd Hk). }
  rewrite (insert_file_ok e w _ _ _ _ Hd Hk).
  set (r := Row.mk (next_rowid w) file_name object_key content_type file_size
              (current_timestamp e)).
  exact (get_file_metadata_existing (next_rowid w) (add_row r w) r
           (lookup_row_add_row r w eq_refl)).
Qed.

(** X20: [delete_file_metadata] reports what it did.  When the DELETE
    statement runs, the value returned is true exactly when the id had a
    row; afterwards the id has no row, the rows of all other ids are what
    they were, and the bucket is not touched.  When the statement fails, the
    failure is raised and nothing changes. *)
Theorem X20_delete_file_metadata_reports_removal
    (e : env) (file_id other : Z) (w : world) :
  match db_fault e with
  | Some x => database_service.delete_file_metadata e file_id w = (Raise x, w)
  | None =>
      ∃ w',
        database_service.delete_file_metadata e file_id w
          = (Ok (match lookup_row file_id w with Some _ => true | None => false end),
             w') ∧
        lookup_row file_id w' = None ∧
        (other ≠ file_id → lookup_row other w' = lookup_row other w) ∧
        bucket w' = bucket w
  end.
Proof.
  unfold database_service.delete_file_metadata, bind.
  destruct (db_fault e) as [x|] eqn:Hd.
  { by rewrite (delete_by_id_fault e w file_id x Hd). }
  rewrite (delete_by_id_eq e file_id w Hd).
  exists (drop_row file_id w). split; [|split; [|split]].
  - unfold ret. f_equal. f_equal.
    destruct (lookup_row file_id w) as [row|] eqn:H.
    + apply Z.ltb_lt. by apply (rowcount_present file_id w row).
    + by rewrite (rowcount_missing file_id w H).
  - apply lookup_row_drop_row.
  - intros Hne. unfold lookup_row. simpl. by apply find_filter_other.
  - reflexivity.
Qed.

(** X21: put, remove, get on the object-store service.  With the store
    reachable, what [upload_file_to_minio] wrote can be removed with
    [delete_file_from_minio] under the key it returned, also on a store that
    reports absent keys; [download_file_from_minio] of that key then raises
    [NoSuchKey]; the table is never touched, and if the key was new the
    bucket is back to what it was. *)
Theorem X21_put_remove_get
    (e1 e2 e3 : env) (file : UploadFile.t) (w : world) :
  store_fault e1 = None →
  store_fault e2 = None →
  store_fault e3 = None →
  ∃ key w1 w2,
    minio_service.upload_file_to_minio e1 file w
      = (Ok (UploadFile.filename file, key, len (UploadFile.content file),
             or_else (UploadFile.content_type file) "application/octet-stream"), w1) ∧
    minio_service.delete_file_from_minio e2 key w1 = (Ok tt, w2) ∧
    minio_service.download_file_from_minio e3 key w2
      = (Raise (S3Error "NoSuchKey"), w2) ∧
    db_rows w2 = db_rows w ∧
    (bucket w !! key = None → bucket w2 = bucket w).
Proof.
  intros H1 H2 H3.
  set (key := minio_service.object_key_of e1 file).
  exists key, (put_blob key (blob_of file) w),
         (drop_blob key (put_blob key (blob_of file) w)).
  split; [by apply minio_upload_ok|].
  split.
  { unfold minio_service.delete_file_from_minio.
    apply (remove_object_present e2 key _ (blob_of file) H2).
    simpl. apply lookup_insert_eq. }
  split.
  { unfold minio_service.download_file_from_minio, bind.
    rewrite get_object_missing; [reflexivity | exact H3|].
    simpl. apply lookup_delete_eq. }
  split; [reflexivity|].
  intros Hfree. simpl. by apply delete_insert_id.
Qed.

Lemma X21_hello_put_removed_gone :
  ∃ key w1 w2,
    minio_service.delete_file_from_minio strict_store key w1 = (Ok tt, w2) ∧
    minio_service.download_file_from_minio env2 key w2
      = (Raise (S3Error "NoSuchKey"), w2).
Proof.
  destruct (X21_put_remove_get env1 strict_store env2 hello_txt empty_world
              eq_refl eq_refl eq_refl) as (key & w1 & w2 & _ & Hdel & Hget & _).
  exists key, w1, w2. auto.
Defined.

(** ** The listing after a delete *)

Lemma filter_all_kept {A} (p : A → bool) (l : list A) :
  (∀ a, a ∈ l → p a = false) → List.filter (λ a, negb (p a)) l = l.
Proof.
  intros H. induction l as [|a l IH]; [reflexivity|]. simpl.
  rewrite (H a) by (apply elem_of_cons; auto). simpl. f_equal.
  apply IH. intros a' Ha'. apply H. apply elem_of_cons; auto.
Qed.

Lemma rows_without (rows : list Row.t) (i : Z) (row : Row.t) :
  NoDup (Row.id <$> rows) →
  List.find (has_id i) rows = Some row →
  rows ≡ₚ row :: List.filter (λ r, negb (has_id i r)) rows.
Proof.
  induction rows as [|r rows IH]; [discriminate|]. simpl.
  rewrite NoDup_cons. intros [Hnotin Hnd].
  destruct (has_id i r) eqn:Hr; simpl.
  - intros [= ->]. rewrite filter_all_kept; [reflexivity|].
    intros r' Hr'. destruct (has_id i r') eqn:Hi; [|reflexivity].
    exfalso. apply Hnotin.
    unfold has_id in *. apply Z.eqb_eq in Hr. apply Z.eqb_eq in Hi.
    replace (Row.id row) with (Row.id r') by lia.
    by apply list_elem_of_fmap_2.
  - intros Hfind. rewrite (IH Hnd Hfind) at 1. apply Permutation_swap.
Qed.

Lemma app_delete_file_eq (e : env) (file_id : Z) (w : world) (row : Row.t) :
  lookup_row file_id w = Some row →
  app.delete_file e file_id w =
    match remove_object e (Row.minio_object_key row)
            (if concurrent_delete e
             then lose_race file_id (Row.minio_object_key row) w else w) with
    | (Raise x, w1) => (Raise (app_error "Delete error: " x), w1)
    | (Ok _, w1) =>
        match db_fault e with
        | Some x => (Raise (app_error "Delete error: " x), w1)
        | None => (Ok (FileDeleted file_id), drop_row file_id w1)
        end
    end.
Proof.
  intros H. unfold app.delete_file, try_except.
  unfold bind at 1. rewrite (select_by_id_found _ _ _ H).
  unfold bind at 1. rewrite (interleave_eq e file_id w row H).
  unfold bind at 1.
  destruct (remove_object e (Row.minio_object_key row) _) as [[[]|x] w1].
  - unfold bind. destruct (db_fault e) as [x|] eqn:Hd.
    + rewrite (delete_by_id_fault e w1 file_id x Hd). by destruct x.
    + by rewrite (delete_by_id_eq e file_id w1 Hd).
  - by destruct x.
Qed.

(** X22: what a delete takes out of the listing.  On a table whose ids are
    unique, after a monolithic delete that was answered with 200 the listing
    is the listing before without the deleted record: the old listing is a
    rearrangement of that record put in front of the new listing, so exactly
    one record is gone. *)
Theorem X22_delete_removes_one_record_from_listing
    (e : env) (file_id : Z) (w w' : world) (row : Row.t) (m : message) :
  table_ok w →
  lookup_row file_id w = Some row →
  app.delete_file e file_id w = (Ok m, w') →
  ∃ L L',
    app.list_files w = (Ok L, w) ∧
    app.list_files w' = (Ok L', w') ∧
    L ≡ₚ app.metadata_of_row row :: L' ∧
    List.length L = S (List.length L').
Proof.
  intros (Hids & _ & _) Hrow Hdel.
  assert (db_rows w' = List.filter (λ r, negb (has_id file_id r)) (db_rows w)) as Hrows.
  { rewrite (app_delete_file_eq e file_id w row Hrow) in Hdel.
    set (k := Row.minio_object_key row) in *.
    destruct (remove_object_cases e k
                (if concurrent_delete e then lose_race file_id k w else w))
      as [(x & Heq & _) | (Heq & _)]; rewrite Heq in Hdel; [discriminate|].
    destruct (db_fault e); [discriminate|].
    injection Hdel as _ <-.
    destruct (concurrent_delete e); simpl; by rewrite ?filter_twice. }
  exists (app.metadata_of_row <$> merge_sort newer_first (db_rows w)),
         (app.metadata_of_row <$> merge_sort newer_first (db_rows w')).
  split; [apply app_list_files_eq|]. split; [apply app_list_files_eq|].
  assert (app.metadata_of_row <$> merge_sort newer_first (db_rows w)
          ≡ₚ app.metadata_of_row row
               :: (app.metadata_of_row <$> merge_sort newer_first (db_rows w'))) as Hperm.
  { rewrite !merge_sort_Permutation, Hrows.
    rewrite (rows_without (db_rows w) file_id row Hids Hrow) at 1.
    by rewrite fmap_cons. }
  split; [exact Hperm | by rewrite Hperm].
Qed.

Lemma X22_hello_gone_from_listing :
  ∃ L', app.list_files (snd (app.delete_file env2 1 one_file))
          = (Ok L', snd (app.delete_file env2 1 one_file)) ∧
        List.length L' = 0%nat.
Proof.
  destruct (X22_delete_removes_one_record_from_listing env2 1 one_file _
              (app_row env1 hello_txt empty_world) (FileDeleted 1)
              one_file_table_ok eq_refl eq_refl)
    as (L & L' & HL & HL' & _ & Hlen).
  exists L'. split; [exact HL'|].
  injection HL as <-. simpl in Hlen. lia.
Defined.
